(** * Matchmaking queue of the board-game backend

    A shallow embedding of [src/controllers/matchmaking.controller.js]:
    the process-wide [matchmakingQueue] (a JavaScript [Map] from user id to
    [{ rating, timestamp, gameType }]), the proximity search
    [findBestMatch], the three request handlers [startMatchmaking],
    [cancelMatchmaking] and [checkMatchmakingStatus], and the clean-up
    callback installed with [setInterval].

    Conventions of the model.
    - User ids and game types are strings; ratings are the integers of the
      [rating INTEGER NOT NULL] column, timestamps are milliseconds ([Z]).
    - A JavaScript [Map] iterates in insertion order, so the queue is an
      association list in insertion order (module [JsMap]).
    - Every handler is one step: the interleaving of two handlers at their
      [await] points is not modelled.
    - The Prisma client is the environment of a request ([Env]): the rows of
      the users table, the clock, and which of the awaited calls reject. *)

From Stdlib Require Import ZArith List String Bool Lia.
Import ListNotations.

Local Open Scope string_scope.
Local Open Scope list_scope.
Local Open Scope Z_scope.

(** ** JavaScript [Map] with string keys, in insertion order *)

Module JsMap.
Section WithValues.
Context {V : Type}.

Definition t : Type := list (string * V).

(** [new Map()] *)
Definition empty : t := [].

(** [m.entries()]: the pairs in insertion order *)
Definition entries (m : t) : list (string * V) := m.

Fixpoint get (k : string) (m : t) : option V :=
  match m with
  | [] => None
  | (k', v) :: rest => if String.eqb k' k then Some v else get k rest
  end.

Definition has (k : string) (m : t) : bool :=
  match get k m with Some _ => true | None => false end.

(** [m.delete(k)] *)
Definition delete (k : string) (m : t) : t :=
  filter (fun kv => negb (String.eqb (fst kv) k)) m.

(** [m.set(k, v)]: an existing key keeps its place, a new key goes last *)
Fixpoint set (k : string) (v : V) (m : t) : t :=
  match m with
  | [] => [(k, v)]
  | (k', v') :: rest =>
      if String.eqb k' k then (k, v) :: rest else (k', v') :: set k v rest
  end.

(** [m.size] *)
Definition size (m : t) : nat := List.length m.

Definition keys (m : t) : list string := map fst m.

(** What the [Map] type guarantees: one entry per key. *)
Definition wf (m : t) : Prop := NoDup (keys m).
End WithValues.
Arguments t : clear implicits.
End JsMap.

(** ** Data *)

Definition UserId : Type := string.

(** The value stored per user: [{ rating, timestamp, gameType }]. *)
Record QueueEntry : Type := mkEntry {
  rating : Z;
  timestamp : Z;
  gameType : string
}.

(** [const matchmakingQueue = new Map()] *)
Definition Queue : Type := JsMap.t QueueEntry.

(** [{ userId, ...data }], the object [findBestMatch] returns. *)
Record BestMatch : Type := mkBestMatch {
  bm_userId : UserId;
  bm_rating : Z;
  bm_timestamp : Z;
  bm_gameType : string
}.

(** A row of the users table, as far as [select: { id, name, rating }]
    shows it. *)
Record UserRow : Type := mkUserRow {
  row_name : option string;
  row_rating : Z
}.

Record User : Type := mkUser {
  user_id : UserId;
  user_name : option string;
  user_rating : Z
}.

(** The [data] of [prisma.game.create]. *)
Record GameData : Type := mkGameData {
  game_gameType : string;
  player1Id : UserId;
  player2Id : option UserId;
  status : string;
  currentTurn : option UserId;
  startedAt : option Z
}.

(** A game record with [include: { player1, player2 }]. *)
Record Game : Type := mkGame {
  game_id : string;
  game_data : GameData;
  player1 : option User;
  player2 : option User
}.

(** The JSON answers of the three handlers. *)
Inductive Response : Type :=
| UserNotFound                          (* 404, 'User not found' *)
| MatchFound (game : Game)              (* matched: true, game, 'Match found!' *)
| Searching (queuePosition : nat)       (* start: matched: false, queuePosition *)
| StillSearching (queuePosition : nat)  (* status: matched: false, inQueue: true, queuePosition *)
| NotInQueue                            (* status: matched: false, inQueue: false *)
| Cancelled                             (* 'Matchmaking cancelled' *)
| NotInMatchmakingQueue                 (* 400, 'Not in matchmaking queue' *)
| Failure (message : string).           (* 500 *)

(** ** The environment of a request *)

Inductive DbCall : Type :=
| UserLookup       (* prisma.user.findUnique for the requester *)
| OpponentLookup   (* prisma.user.findUnique for the selected opponent *)
| GameCreate       (* prisma.game.create *)
| GameFindFirst.   (* prisma.game.findFirst *)

Record Env : Type := mkEnv {
  env_now : Z;                        (* Date.now() and new Date() *)
  env_users : UserId -> option UserRow;
  env_fails : DbCall -> bool;         (* the awaited call rejects *)
  env_newGameId : string              (* the id the store gives a new game *)
}.

(** The state the handlers share: the queue and the games table. *)
Record World : Type := mkWorld {
  queue : Queue;
  games : list Game
}.

(** ** A state monad with exceptions

    A handler body either returns a value or throws; the mutations of the
    queue made before a throw stay. *)

Inductive Completion (A : Type) : Type :=
| Returned (a : A)
| Thrown.
Arguments Returned {A} a.
Arguments Thrown {A}.

Definition Handler (A : Type) : Type := World -> Completion A * World.

Definition ret {A} (a : A) : Handler A := fun w => (Returned a, w).

Definition throw {A} : Handler A := fun w => (Thrown, w).

Definition bind {A B} (c : Handler A) (k : A -> Handler B) : Handler B :=
  fun w =>
    match c w with
    | (Returned a, w') => k a w'
    | (Thrown, w') => (Thrown, w')
    end.

Notation "x <- c ;; k" := (bind c (fun x => k))
  (at level 61, c at next level, right associativity).
Notation "c ;; k" := (bind c (fun _ => k))
  (at level 61, right associativity).

(** [try { body } catch (error) { res.status(500).json(onError) }] *)
Definition try_catch (body : Handler Response) (onError : Response)
  : World -> Response * World :=
  fun w =>
    match body w with
    | (Returned r, w') => (r, w')
    | (Thrown, w') => (onError, w')
    end.

Definition read_queue {A} (f : Queue -> A) : Handler A :=
  fun w => (Returned (f (queue w)), w).

Definition update_queue (f : Queue -> Queue) : Handler unit :=
  fun w => (Returned tt, mkWorld (f (queue w)) (games w)).

Definition queue_has (userId : UserId) : Handler bool :=
  read_queue (JsMap.has userId).

Definition queue_delete (userId : UserId) : Handler unit :=
  update_queue (JsMap.delete userId).

Definition queue_set (userId : UserId) (data : QueueEntry) : Handler unit :=
  update_queue (JsMap.set userId data).

Definition queue_size : Handler nat := read_queue JsMap.size.

(** ** The Prisma calls *)

Definition select_user (env : Env) (id : UserId) : option User :=
  match env_users env id with
  | Some row => Some (mkUser id (row_name row) (row_rating row))
  | None => None
  end.

(** [await prisma.user.findUnique({ where: { id }, select: ... })] *)
Definition prisma_user_findUnique (env : Env) (call : DbCall) (id : UserId)
  : Handler (option User) :=
  fun w =>
    if env_fails env call then (Thrown, w)
    else (Returned (select_user env id), w).

Definition include_players (env : Env) (id : string) (data : GameData) : Game :=
  mkGame id data
    (select_user env (player1Id data))
    (match player2Id data with
     | Some p2 => select_user env p2
     | None => None
     end).

(** [await prisma.game.create({ data, include: ... })] *)
Definition prisma_game_create (env : Env) (data : GameData) : Handler Game :=
  fun w =>
    if env_fails env GameCreate then (Thrown, w)
    else
      let game := include_players env (env_newGameId env) data in
      (Returned game, mkWorld (queue w) (games w ++ [game])).

Definition option_eqb (o : option string) (s : string) : bool :=
  match o with Some x => String.eqb x s | None => false end.

(** The [where] clause of the status fallback. *)
Definition recent_game_of (userId : UserId) (gameType0 : string) (since : Z)
    (g : Game) : bool :=
  let d := game_data g in
  (String.eqb (player1Id d) userId || option_eqb (player2Id d) userId)
  && String.eqb (game_gameType d) gameType0
  && String.eqb (status d) "IN_PROGRESS"
  && match startedAt d with Some t => since <=? t | None => false end.

Definition started (g : Game) : Z :=
  match startedAt (game_data g) with Some t => t | None => 0 end.

(** [orderBy: { startedAt: 'desc' }], first row; rows with equal
    [startedAt] in table order. *)
Fixpoint latest (rows : list Game) (best : option Game) : option Game :=
  match rows with
  | [] => best
  | g :: rest =>
      match best with
      | None => latest rest (Some g)
      | Some b => if started b <? started g then latest rest (Some g)
                  else latest rest best
      end
  end.

(** [await prisma.game.findFirst({ where, include, orderBy })] *)
Definition prisma_game_findFirst (env : Env) (userId : UserId)
    (gameType : string) (since : Z) : Handler (option Game) :=
  fun w =>
    if env_fails env GameFindFirst then (Thrown, w)
    else
      let found := latest (filter (recent_game_of userId gameType since) (games w)) None in
      (Returned (option_map (fun g => include_players env (game_id g) (game_data g)) found), w).

(** ** The proximity search *)

(** [Math.abs(rating1 - rating2)] *)
Definition getRatingDifference (rating1 rating2 : Z) : Z :=
  Z.abs (rating1 - rating2).

(** [smallestDifference]: a number or [Infinity]. *)
Inductive Difference : Type :=
| Infinity
| Finite (d : Z).

(** [difference < smallestDifference] *)
Definition less_than (difference : Z) (smallest : Difference) : bool :=
  match smallest with
  | Infinity => true
  | Finite s => difference <? s
  end.

(** The body of [for (const [userId, data] of matchmakingQueue.entries())],
    with the two locals of [findBestMatch] as accumulators. *)
Fixpoint findBestMatch_loop (playerRating : Z) (gameType0 : string)
    (excludeUserId : UserId) (entries : list (UserId * QueueEntry))
    (bestMatch : option BestMatch) (smallestDifference : Difference)
  : option BestMatch :=
  match entries with
  | [] => bestMatch
  | (userId, data) :: rest =>
      if String.eqb userId excludeUserId
         || negb (String.eqb (gameType data) gameType0)
      then
        findBestMatch_loop playerRating gameType0 excludeUserId rest
          bestMatch smallestDifference
      else
        let difference := getRatingDifference playerRating (rating data) in
        if less_than difference smallestDifference then
          findBestMatch_loop playerRating gameType0 excludeUserId rest
            (Some (mkBestMatch userId (rating data) (timestamp data) (gameType data)))
            (Finite difference)
        else
          findBestMatch_loop playerRating gameType0 excludeUserId rest
            bestMatch smallestDifference
  end.

Definition findBestMatch (playerRating : Z) (gameType0 : string)
    (excludeUserId : UserId) (q : Queue) : option BestMatch :=
  findBestMatch_loop playerRating gameType0 excludeUserId (JsMap.entries q)
    None Infinity.

(** ** The handlers *)

(** [startMatchmaking]: [userId] is [req.user.id], [gameType0] is
    [req.body.gameType]. *)
Definition startMatchmaking_body (env : Env) (userId : UserId)
    (gameType0 : string) : Handler Response :=
  user <- prisma_user_findUnique env UserLookup userId ;;
  match user with
  | None => ret UserNotFound
  | Some user =>
      inQueue <- queue_has userId ;;
      (if inQueue then queue_delete userId else ret tt) ;;
      bestMatch <- read_queue (findBestMatch (user_rating user) gameType0 userId) ;;
      match bestMatch with
      | Some bestMatch =>
          queue_delete (bm_userId bestMatch) ;;
          _opponent <- prisma_user_findUnique env OpponentLookup (bm_userId bestMatch) ;;
          game <- prisma_game_create env
                    (mkGameData gameType0
                       (bm_userId bestMatch)
                       (Some userId)
                       "IN_PROGRESS"
                       (Some (bm_userId bestMatch))
                       (Some (env_now env))) ;;
          ret (MatchFound game)
      | None =>
          queue_set userId (mkEntry (user_rating user) (env_now env) gameType0) ;;
          size <- queue_size ;;
          ret (Searching size)
      end
  end.

Definition startMatchmaking (env : Env) (userId : UserId) (gameType0 : string)
  : World -> Response * World :=
  try_catch (startMatchmaking_body env userId gameType0)
    (Failure "Matchmaking failed").

(** [cancelMatchmaking] *)
Definition cancelMatchmaking_body (userId : UserId) : Handler Response :=
  inQueue <- queue_has userId ;;
  if inQueue then
    queue_delete userId ;;
    ret Cancelled
  else ret NotInMatchmakingQueue.

Definition cancelMatchmaking (userId : UserId) : World -> Response * World :=
  try_catch (cancelMatchmaking_body userId)
    (Failure "Failed to cancel matchmaking").

(** [checkMatchmakingStatus]: [gameType0] is [req.query.gameType].  Reading
    [user.rating] of a user that was not found throws. *)
Definition checkMatchmakingStatus_body (env : Env) (userId : UserId)
    (gameType0 : string) : Handler Response :=
  inQueue <- queue_has userId ;;
  if negb inQueue then
    recentGame <- prisma_game_findFirst env userId gameType0 (env_now env - 30000) ;;
    match recentGame with
    | Some recentGame => ret (MatchFound recentGame)
    | None => ret NotInQueue
    end
  else
    user <- prisma_user_findUnique env UserLookup userId ;;
    match user with
    | None => throw
    | Some user =>
        bestMatch <- read_queue (findBestMatch (user_rating user) gameType0 userId) ;;
        match bestMatch with
        | Some bestMatch =>
            queue_delete userId ;;
            queue_delete (bm_userId bestMatch) ;;
            game <- prisma_game_create env
                      (mkGameData gameType0
                         userId
                         (Some (bm_userId bestMatch))
                         "IN_PROGRESS"
                         (Some userId)
                         (Some (env_now env))) ;;
            ret (MatchFound game)
        | None =>
            size <- queue_size ;;
            ret (StillSearching size)
        end
    end.

Definition checkMatchmakingStatus (env : Env) (userId : UserId)
    (gameType0 : string) : World -> Response * World :=
  try_catch (checkMatchmakingStatus_body env userId gameType0)
    (Failure "Failed to check matchmaking status").

(** ** The clean-up timer *)

(** [const TIMEOUT = 5 * 60 * 1000] *)
Definition TIMEOUT : Z := 5 * 60 * 1000.

(** The delay given to [setInterval]. *)
Definition CLEANUP_INTERVAL : Z := 60000.

(** The loop of the callback: it walks the entries and deletes from the
    live map. *)
Fixpoint cleanup_loop (now : Z) (entries : list (UserId * QueueEntry))
    (q : Queue) : Queue :=
  match entries with
  | [] => q
  | (userId, data) :: rest =>
      if now - timestamp data >? TIMEOUT
      then cleanup_loop now rest (JsMap.delete userId q)
      else cleanup_loop now rest q
  end.

Definition cleanup (now : Z) (w : World) : World :=
  mkWorld (cleanup_loop now (JsMap.entries (queue w)) (queue w)) (games w).

(** The [k]-th firing of the timer, counted from the moment the module
    is loaded at [t0]. *)
Definition cleanup_time (t0 : Z) (k : nat) : Z :=
  t0 + Z.of_nat k * CLEANUP_INTERVAL.

(** ** Runs of the component *)

Inductive Op : Type :=
| OpStart (env : Env) (userId : UserId) (gameType0 : string)
| OpCancel (userId : UserId)
| OpStatus (env : Env) (userId : UserId) (gameType0 : string)
| OpCleanup (now : Z).

(** One operation: the answer sent (the timer sends none) and the new
    state. *)
Definition step (op : Op) (w : World) : option Response * World :=
  match op with
  | OpStart env userId gameType0 =>
      let (r, w') := startMatchmaking env userId gameType0 w in (Some r, w')
  | OpCancel userId =>
      let (r, w') := cancelMatchmaking userId w in (Some r, w')
  | OpStatus env userId gameType0 =>
      let (r, w') := checkMatchmakingStatus env userId gameType0 w in (Some r, w')
  | OpCleanup now => (None, cleanup now w)
  end.

Fixpoint run (ops : list Op) (w : World) : World :=
  match ops with
  | [] => w
  | op :: rest => run rest (snd (step op w))
  end.

(** The state when the module has been loaded: an empty queue, and the
    games the store already holds. *)
Definition initial (stored : list Game) : World := mkWorld JsMap.empty stored.

(** ** Notions used in the statements *)

(** The game [startMatchmaking] creates for the waiting player [waiting]. *)
Definition started_game (env : Env) (gameType0 : string)
    (waiting joining : UserId) : Game :=
  include_players env (env_newGameId env)
    (mkGameData gameType0 waiting (Some joining) "IN_PROGRESS"
       (Some waiting) (Some (env_now env))).

(** The game [checkMatchmakingStatus] creates for the polling player. *)
Definition polled_game (env : Env) (gameType0 : string)
    (polling waiting : UserId) : Game :=
  include_players env (env_newGameId env)
    (mkGameData gameType0 polling (Some waiting) "IN_PROGRESS"
       (Some polling) (Some (env_now env))).


(** The entries the search looks at: another user, the same game type. *)
Definition is_candidate (gameType0 : string) (excludeUserId : UserId)
    (kv : UserId * QueueEntry) : bool :=
  negb (String.eqb (fst kv) excludeUserId)
  && String.eqb (gameType (snd kv)) gameType0.

(** The queue entry a search result was built from. *)
Definition entry_of (m : BestMatch) : UserId * QueueEntry :=
  (bm_userId m, mkEntry (bm_rating m) (bm_timestamp m) (bm_gameType m)).

(** The distance the search minimises, [|candidate.rating - requester.rating|]. *)
Definition distance (playerRating : Z) (kv : UserId * QueueEntry) : Z :=
  Z.abs (rating (snd kv) - playerRating).

(** What the two locals of the search loop hold after the entries [seen]. *)
Definition search_state (playerRating : Z) (gameType0 : string)
    (excludeUserId : UserId) (seen : list (UserId * QueueEntry))
    (bestMatch : option BestMatch) (smallest : Difference) : Prop :=
  match bestMatch, smallest with
  | None, Infinity =>
      forall kv, In kv seen -> is_candidate gameType0 excludeUserId kv = false
  | Some m, Finite d =>
      d = distance playerRating (entry_of m) /\
      is_candidate gameType0 excludeUserId (entry_of m) = true /\
      exists before after,
        seen = before ++ entry_of m :: after /\
        (forall kv, In kv seen -> is_candidate gameType0 excludeUserId kv = true ->
           d <= distance playerRating kv) /\
        (forall kv, In kv before -> is_candidate gameType0 excludeUserId kv = true ->
           d < distance playerRating kv)
  | _, _ => False
  end.

(** What the search returns on the entries [all]: nothing when there is no
    candidate, else a closest candidate, the first of the closest ones. *)
Definition search_result (playerRating : Z) (gameType0 : string)
    (excludeUserId : UserId) (all : list (UserId * QueueEntry))
    (found : option BestMatch) : Prop :=
  match found with
  | None => forall kv, In kv all -> is_candidate gameType0 excludeUserId kv = false
  | Some m =>
      is_candidate gameType0 excludeUserId (entry_of m) = true /\
      exists before after,
        all = before ++ entry_of m :: after /\
        (forall kv, In kv all -> is_candidate gameType0 excludeUserId kv = true ->
           distance playerRating (entry_of m) <= distance playerRating kv) /\
        (forall kv, In kv before -> is_candidate gameType0 excludeUserId kv = true ->
           distance playerRating (entry_of m) < distance playerRating kv)
  end.

(** The entries of one game type. *)
Definition partition_of (gameType0 : string) (q : Queue) : Queue :=
  filter (fun kv => String.eqb (gameType (snd kv)) gameType0) q.

(** An entry's age at time [now]. *)
Definition age (now : Z) (data : QueueEntry) : Z := now - timestamp data.

(** The two players of a game are different users. *)
Definition two_players (g : Game) : Prop :=
  player2Id (game_data g) <> Some (player1Id (game_data g)).

(** Requests whose Prisma calls all succeed. *)
Definition db_up (env : Env) : Prop := forall call, env_fails env call = false.

(** How many entries the queue holds for a player. *)
Definition entries_of_player (userId : UserId) (q : Queue) : nat :=
  List.length (filter (String.eqb userId) (JsMap.keys q)).

(** The search result built from a queue entry: [{ userId, ...data }]. *)
Definition match_of (kv : UserId * QueueEntry) : BestMatch :=
  mkBestMatch (fst kv) (rating (snd kv)) (timestamp (snd kv)) (gameType (snd kv)).

(** ** Sample data for the examples *)

Definition sample_users (id : UserId) : option UserRow :=
  if String.eqb id "alice" then Some (mkUserRow (Some "Alice") 1000)
  else if String.eqb id "bob" then Some (mkUserRow (Some "Bob") 1050)
  else if String.eqb id "carol" then Some (mkUserRow None 1200)
  else if String.eqb id "dave" then Some (mkUserRow (Some "Dave") 900)
  else None.

(** A request at time [now] during which every Prisma call succeeds. *)
Definition healthy (now : Z) : Env :=
  mkEnv now sample_users (fun _ => false) "game-1".

(** A request at time [now] during which [prisma.game.create] rejects. *)
Definition create_rejects (now : Z) : Env :=
  mkEnv now sample_users
    (fun call => match call with GameCreate => true | _ => false end) "game-1".

(** A request at time [now] when alice's rating in the store has become
    1150. *)
Definition after_rating_change (now : Z) : Env :=
  mkEnv now
    (fun id => if String.eqb id "alice" then Some (mkUserRow (Some "Alice") 1150)
               else sample_users id)
    (fun _ => false) "game-1".

(** ** The game controller ([src/controllers/game.controller.js])

    [createGame], [joinGame] and [getGame] work on the games table that the
    status request reads.  [updateGameState] and [getAvailableGames] use
    columns ([board], [winnerId], [endedAt], [createdAt]) that [GameData]
    does not carry and are not modelled. *)

(** Which awaited calls of a game request reject, next to the clock, the
    users and the new id of [Env]. *)
Record GameEnv : Type := mkGameEnv {
  ge_env : Env;
  ge_findUnique_fails : bool;   (* prisma.game.findUnique rejects *)
  ge_update_fails : bool        (* prisma.game.update rejects *)
}.

(** The JSON answers of the game controller. *)
Inductive GameResponse : Type :=
| GameCreated (game : Game)        (* 201, { success: true, game } *)
| GameJoined (game : Game)         (* { success: true, game: updatedGame } *)
| GameFetched (game : Game)        (* { success: true, game } *)
| GameNotFound                     (* 404, 'Game not found' *)
| GameNotAvailable                 (* 400, 'Game is not available to join' *)
| CannotJoinOwnGame                (* 400, 'Cannot join your own game' *)
| GameFailure (message : string).  (* 500 *)

Definition try_catch_game (body : Handler GameResponse) (onError : GameResponse)
  : World -> GameResponse * World :=
  fun w =>
    match body w with
    | (Returned r, w') => (r, w')
    | (Thrown, w') => (onError, w')
    end.

(** [await prisma.game.findUnique({ where: { id: gameId }, include })] *)
Definition prisma_game_findUnique (genv : GameEnv) (gameId : string)
  : Handler (option Game) :=
  fun w =>
    if ge_findUnique_fails genv then (Thrown, w)
    else
      (Returned
         (option_map
            (fun g => include_players (ge_env genv) (game_id g) (game_data g))
            (find (fun g => String.eqb (game_id g) gameId) (games w))),
       w).

(** The row with id [gameId] replaced by [f] of it. *)
Fixpoint update_row (gameId : string) (f : Game -> Game) (rows : list Game)
  : list Game :=
  match rows with
  | [] => []
  | g :: rest =>
      if String.eqb (game_id g) gameId then f g :: rest
      else g :: update_row gameId f rest
  end.

(** The [data] of the update in [joinGame]:
    [{ player2Id: userId, status: 'IN_PROGRESS', startedAt: new Date() }]. *)
Definition joined (userId : UserId) (now : Z) (data : GameData) : GameData :=
  mkGameData (game_gameType data) (player1Id data) (Some userId)
    "IN_PROGRESS" (currentTurn data) (Some now).

(** [await prisma.game.update({ where: { id: gameId }, data, include })];
    a record that does not exist makes the call reject. *)
Definition prisma_game_update_join (genv : GameEnv) (gameId : string)
    (userId : UserId) : Handler Game :=
  fun w =>
    if ge_update_fails genv then (Thrown, w)
    else
      match find (fun g => String.eqb (game_id g) gameId) (games w) with
      | None => (Thrown, w)
      | Some g =>
          let data := joined userId (env_now (ge_env genv)) (game_data g) in
          (Returned (include_players (ge_env genv) (game_id g) data),
           mkWorld (queue w)
             (update_row gameId
                (fun g => include_players (ge_env genv) (game_id g)
                            (joined userId (env_now (ge_env genv)) (game_data g)))
                (games w)))
      end.

(** [createGame]: [userId] is [req.user.id], [gameType0] is
    [req.body.gameType]. *)
Definition createGame_body (env : Env) (userId : UserId) (gameType0 : string)
  : Handler GameResponse :=
  game <- prisma_game_create env
            (mkGameData gameType0 userId None "WAITING" None None) ;;
  ret (GameCreated game).

Definition createGame (env : Env) (userId : UserId) (gameType0 : string)
  : World -> GameResponse * World :=
  try_catch_game (createGame_body env userId gameType0)
    (GameFailure "Failed to create game").

(** [joinGame]: [gameId] is [req.params.gameId]. *)
Definition joinGame_body (genv : GameEnv) (gameId : string) (userId : UserId)
  : Handler GameResponse :=
  game <- prisma_game_findUnique genv gameId ;;
  match game with
  | None => ret GameNotFound
  | Some game =>
      if negb (String.eqb (status (game_data game)) "WAITING")
      then ret GameNotAvailable
      else if String.eqb (player1Id (game_data game)) userId
      then ret CannotJoinOwnGame
      else
        updatedGame <- prisma_game_update_join genv gameId userId ;;
        ret (GameJoined updatedGame)
  end.

Definition joinGame (genv : GameEnv) (gameId : string) (userId : UserId)
  : World -> GameResponse * World :=
  try_catch_game (joinGame_body genv gameId userId)
    (GameFailure "Failed to join game").

(** [getGame] *)
Definition getGame_body (genv : GameEnv) (gameId : string)
  : Handler GameResponse :=
  game <- prisma_game_findUnique genv gameId ;;
  match game with
  | None => ret GameNotFound
  | Some game => ret (GameFetched game)
  end.

Definition getGame (genv : GameEnv) (gameId : string)
  : World -> GameResponse * World :=
  try_catch_game (getGame_body genv gameId)
    (GameFailure "Failed to fetch game").

(** Requests of the two controllers, in any order. *)
Inductive Request : Type :=
| Matchmaking (op : Op)
| CreateGame (env : Env) (userId : UserId) (gameType0 : string)
| JoinGame (genv : GameEnv) (gameId : string) (userId : UserId)
| GetGame (genv : GameEnv) (gameId : string).

Definition serve (req : Request) (w : World) : World :=
  match req with
  | Matchmaking op => snd (step op w)
  | CreateGame env userId gameType0 => snd (createGame env userId gameType0 w)
  | JoinGame genv gameId userId => snd (joinGame genv gameId userId w)
  | GetGame genv gameId => snd (getGame genv gameId w)
  end.

Fixpoint serve_all (reqs : list Request) (w : World) : World :=
  match reqs with
  | [] => w
  | req :: rest => serve_all rest (serve req w)
  end.

(** A game request during which every call succeeds. *)
Definition healthy_game (now : Z) : GameEnv := mkGameEnv (healthy now) false false.

(** ** Game statistics ([src/controllers/user.controller.js])

    The handlers [updateGameStats], [getGameStats] and [getAllGameStats]
    and the helper [initializeUserGameStats], over the rows of the
    [game_stats] table.  A request makes one Prisma call; whether it
    rejects is given by the environment.  The numbers of a request body
    are integers or absent. *)

Record DefaultGame : Type := mkDefaultGame {
  dg_id : string;
  dg_title : string
}.

(** [const DEFAULT_GAMES = [...]] *)
Definition DEFAULT_GAMES : list DefaultGame :=
  [ mkDefaultGame "chess" "Chess";
    mkDefaultGame "ayo" "Ayo";
    mkDefaultGame "whot" "Whot";
    mkDefaultGame "ludo" "Ludo";
    mkDefaultGame "draughts" "Draughts" ].

(** A row of [game_stats]. *)
Record GameStats : Type := mkGameStats {
  gs_id : string;
  gs_userId : UserId;
  gs_gameId : string;
  gs_wins : Z;
  gs_losses : Z;
  gs_draws : Z;
  gs_rating : Z;
  gs_createdAt : Z;
  gs_updatedAt : Z
}.

(** The object returned for a game without a row:
    [{ gameId, title, wins, losses, draws, rating, hasExistingStats }]. *)
Record DefaultStats : Type := mkDefaultStats {
  ds_gameId : string;
  ds_title : string;
  ds_wins : Z;
  ds_losses : Z;
  ds_draws : Z;
  ds_rating : Z;
  ds_hasExistingStats : bool
}.

(** An element of [allGameStats]: a stored row or a default object. *)
Inductive StatsEntry : Type :=
| Stored (row : GameStats)
| Defaulted (stats : DefaultStats).

(** [{ wins, losses, draws, rating } = req.body] *)
Record StatsBody : Type := mkStatsBody {
  body_wins : option Z;
  body_losses : option Z;
  body_draws : option Z;
  body_rating : option Z
}.

Record StatsEnv : Type := mkStatsEnv {
  se_now : Z;                    (* the time the store stamps rows with *)
  se_fails : bool;               (* the Prisma call of the request rejects *)
  se_newId : string -> string    (* the id the store gives a new row of a game *)
}.

Inductive StatsResponse : Type :=
| StatsUpdated (gameStats : GameStats)   (* 'Game statistics updated successfully' *)
| StatsFound (gameStats : GameStats)     (* { gameStats } *)
| StatsDefault (gameStats : DefaultStats)  (* 'Returning default game statistics ...' *)
| InvalidGameId                          (* 404, 'Invalid game ID' *)
| AllGameStats (allGameStats : list StatsEntry) (totalGames gamesWithStats : nat)
| StatsFailure.                          (* 500, 'Internal server error' *)

(** [x || undefined] for a number or absent [x]. *)
Definition or_undefined (x : option Z) : option Z :=
  match x with
  | Some 0 => None
  | Some n => Some n
  | None => None
  end.

(** [x || d] for a number or absent [x]. *)
Definition or_else (x : option Z) (d : Z) : Z :=
  match or_undefined x with
  | Some n => n
  | None => d
  end.

(** The compound unique key [userId_gameId]. *)
Definition has_key (userId : UserId) (gameId : string) (row : GameStats) : bool :=
  String.eqb (gs_userId row) userId && String.eqb (gs_gameId row) gameId.

(** The [update] branch of the upsert: an [undefined] field is left as it
    is; the store stamps [updatedAt]. *)
Definition apply_update (now : Z) (body : StatsBody) (row : GameStats)
  : GameStats :=
  mkGameStats (gs_id row) (gs_userId row) (gs_gameId row)
    (or_else (body_wins body) (gs_wins row))
    (or_else (body_losses body) (gs_losses row))
    (or_else (body_draws body) (gs_draws row))
    (or_else (body_rating body) (gs_rating row))
    (gs_createdAt row) now.

(** The [create] branch of the upsert. *)
Definition new_row (env : StatsEnv) (userId : UserId) (gameId : string)
    (body : StatsBody) : GameStats :=
  mkGameStats (se_newId env gameId) userId gameId
    (or_else (body_wins body) 0)
    (or_else (body_losses body) 0)
    (or_else (body_draws body) 0)
    (or_else (body_rating body) 1000)
    (se_now env) (se_now env).

(** The first row with the key replaced by [f] of it. *)
Fixpoint update_stats (userId : UserId) (gameId : string)
    (f : GameStats -> GameStats) (table : list GameStats) : list GameStats :=
  match table with
  | [] => []
  | row :: rest =>
      if has_key userId gameId row then f row :: rest
      else row :: update_stats userId gameId f rest
  end.

(** [await prisma.gameStats.upsert({ where, update, create })]: the row
    written and the new table, or nothing when the call rejects. *)
Definition prisma_gameStats_upsert (env : StatsEnv) (userId : UserId)
    (gameId : string) (body : StatsBody) (table : list GameStats)
  : option (GameStats * list GameStats) :=
  if se_fails env then None
  else
    match find (has_key userId gameId) table with
    | Some row =>
        Some (apply_update (se_now env) body row,
              update_stats userId gameId (apply_update (se_now env) body) table)
    | None =>
        Some (new_row env userId gameId body,
              table ++ [new_row env userId gameId body])
    end.

(** [updateGameStats]: [gameId] is [req.params.gameId]. *)
Definition updateGameStats (env : StatsEnv) (userId : UserId) (gameId : string)
    (body : StatsBody) (table : list GameStats)
  : StatsResponse * list GameStats :=
  match prisma_gameStats_upsert env userId gameId body table with
  | Some (gameStats, table') => (StatsUpdated gameStats, table')
  | None => (StatsFailure, table)
  end.

(** The default object of a game of [DEFAULT_GAMES]. *)
Definition default_stats (game : DefaultGame) : DefaultStats :=
  mkDefaultStats (dg_id game) (dg_title game) 0 0 0 1000 false.

(** [getGameStats] *)
Definition getGameStats (env : StatsEnv) (userId : UserId) (gameId : string)
    (table : list GameStats) : StatsResponse :=
  if se_fails env then StatsFailure
  else
    match find (has_key userId gameId) table with
    | Some gameStats => StatsFound gameStats
    | None =>
        match find (fun game => String.eqb (dg_id game) gameId) DEFAULT_GAMES with
        | None => InvalidGameId
        | Some defaultGame => StatsDefault (default_stats defaultGame)
        end
    end.

(** [existingStats.forEach(stat => statsMap.set(stat.gameId, stat))] *)
Definition stats_map (existingStats : list GameStats) : JsMap.t GameStats :=
  fold_left (fun statsMap stat => JsMap.set (gs_gameId stat) stat statsMap)
    existingStats JsMap.empty.

(** [getAllGameStats] *)
Definition getAllGameStats (env : StatsEnv) (userId : UserId)
    (table : list GameStats) : StatsResponse :=
  if se_fails env then StatsFailure
  else
    let existingStats :=
      filter (fun row => String.eqb (gs_userId row) userId) table in
    let statsMap := stats_map existingStats in
    let allGameStats :=
      map (fun game =>
             match JsMap.get (dg_id game) statsMap with
             | Some existingStat => Stored existingStat
             | None => Defaulted (default_stats game)
             end) DEFAULT_GAMES in
    AllGameStats allGameStats (List.length allGameStats)
      (List.length existingStats).

(** [prisma.gameStats.createMany({ data, skipDuplicates: true })]: a row
    whose key is taken is skipped. *)
Fixpoint createMany_skipDuplicates (data : list GameStats)
    (table : list GameStats) : list GameStats :=
  match data with
  | [] => table
  | row :: rest =>
      if existsb (has_key (gs_userId row) (gs_gameId row)) table
      then createMany_skipDuplicates rest table
      else createMany_skipDuplicates rest (table ++ [row])
  end.

(** [initializeUserGameStats]: a rejected call is logged and swallowed. *)
Definition initializeUserGameStats (env : StatsEnv) (userId : UserId)
    (table : list GameStats) : list GameStats :=
  let gameStatsData :=
    map (fun game =>
           mkGameStats (se_newId env (dg_id game)) userId (dg_id game)
             0 0 0 1000 (se_now env) (se_now env)) DEFAULT_GAMES in
  if se_fails env then table
  else createMany_skipDuplicates gameStatsData table.

(** The unique index [game_stats_userId_gameId_key]. *)
Definition unique_keys (table : list GameStats) : Prop :=
  NoDup (map (fun row => (gs_userId row, gs_gameId row)) table).

(** The game of an element of [allGameStats]. *)
Definition entry_gameId (entry : StatsEntry) : string :=
  match entry with
  | Stored row => gs_gameId row
  | Defaulted stats => ds_gameId stats
  end.

Definition is_stored (entry : StatsEntry) : bool :=
  match entry with Stored _ => true | Defaulted _ => false end.

(** A game id of [DEFAULT_GAMES]. *)
Definition is_default_game (gameId : string) : bool :=
  existsb (fun game => String.eqb (dg_id game) gameId) DEFAULT_GAMES.

(** How an update writes one statistic: a request value that is absent
    or 0 keeps the stored value, another number replaces it. *)
Definition written_from (field : option Z) (stored written : Z) : Prop :=
  (field = None \/ field = Some 0 -> written = stored) /\
  (forall n, field = Some n -> n <> 0 -> written = n) /\
  (stored <> 0 -> written <> 0).

(** A store that answers, at time [now]. *)
Definition stats_up (now : Z) : StatsEnv :=
  mkStatsEnv now false (fun gameId => String.append "stats-" gameId).

(** Unfolds a handler body of the game controller. *)
Ltac unfold_game_handler :=
  unfold try_catch_game, bind, ret, throw, prisma_game_findUnique,
    prisma_game_update_join, prisma_game_create;
  cbn [queue games fst snd].

(** Unfolds the monad and the Prisma calls of a handler body. *)
Ltac unfold_handler :=
  unfold try_catch, bind, ret, throw, queue_has, queue_delete, queue_set,
    queue_size, read_queue, update_queue, prisma_user_findUnique,
    prisma_game_create, prisma_game_findFirst, select_user;
  cbn [queue games fst snd user_rating].

(** * Proofs *)

(** ** The map operations *)

Section JsMapFacts.
Context {V : Type}.
Implicit Types (m : JsMap.t V) (k : string) (v : V).

Lemma in_delete k k' v m :
  In (k', v) (JsMap.delete k m) <-> In (k', v) m /\ k' <> k.
Proof.
  unfold JsMap.delete. rewrite filter_In. cbn [fst].
  destruct (String.eqb_spec k' k) as [E | E]; cbn; intuition congruence.
Qed.

Lemma in_keys_delete k k' m :
  In k' (JsMap.keys (JsMap.delete k m)) <-> In k' (JsMap.keys m) /\ k' <> k.
Proof.
  unfold JsMap.keys. rewrite !in_map_iff. split.
  - intros [[a v] [<- H]]. apply in_delete in H as [H Hne].
    split; [exists (a, v); auto | exact Hne].
  - intros [[[a v] [<- H]] Hne]. exists (a, v). split; [reflexivity |].
    apply in_delete. auto.
Qed.

Lemma delete_wf k m : JsMap.wf m -> JsMap.wf (JsMap.delete k m).
Proof.
  unfold JsMap.wf. induction m as [| [a v] m IH]; cbn; intros H.
  - constructor.
  - inversion H as [| ? ? Hnotin Hrest]; subst.
    destruct (String.eqb a k); cbn; [auto |].
    constructor; [| auto].
    intros Hin. apply in_keys_delete in Hin. tauto.
Qed.

Lemma in_keys_set k v k' m :
  In k' (JsMap.keys (JsMap.set k v m)) <-> k' = k \/ In k' (JsMap.keys m).
Proof.
  induction m as [| [a w] m IH]; cbn.
  - intuition congruence.
  - destruct (String.eqb_spec a k) as [E | E]; cbn.
    + subst. intuition congruence.
    + rewrite IH. intuition congruence.
Qed.

Lemma set_wf k v m : JsMap.wf m -> JsMap.wf (JsMap.set k v m).
Proof.
  unfold JsMap.wf. induction m as [| [a w] m IH]; cbn; intros H.
  - constructor; [intros [] | constructor].
  - inversion H as [| ? ? Hnotin Hrest]; subst.
    destruct (String.eqb_spec a k) as [E | E]; cbn.
    + subst. constructor; assumption.
    + constructor; [| auto].
      intros Hin. apply in_keys_set in Hin. destruct Hin as [Hin | Hin]; [congruence | exact (Hnotin Hin)].
Qed.

Lemma has_true_iff k m : JsMap.has k m = true <-> In k (JsMap.keys m).
Proof.
  unfold JsMap.has. induction m as [| [a w] m IH]; cbn.
  - intuition discriminate.
  - destruct (String.eqb_spec a k) as [E | E].
    + intuition.
    + rewrite IH. intuition congruence.
Qed.

Lemma has_false_iff k m : JsMap.has k m = false <-> ~ In k (JsMap.keys m).
Proof.
  rewrite <- has_true_iff. destruct (JsMap.has k m); intuition congruence.
Qed.

Lemma has_delete_same k m : JsMap.has k (JsMap.delete k m) = false.
Proof. apply has_false_iff. rewrite in_keys_delete. tauto. Qed.

Lemma delete_absent k m : JsMap.has k m = false -> JsMap.delete k m = m.
Proof.
  rewrite has_false_iff. unfold JsMap.delete.
  induction m as [| [a w] m IH]; cbn; intros H; [reflexivity |].
  destruct (String.eqb_spec a k) as [E | E]; cbn.
  - exfalso. apply H. left. exact E.
  - f_equal. apply IH. intros Hin. apply H. right. exact Hin.
Qed.

Lemma get_in k v m : JsMap.get k m = Some v -> In (k, v) m.
Proof.
  induction m as [| [a w] m IH]; cbn; [discriminate |].
  destruct (String.eqb_spec a k) as [E | E]; intros H.
  - left. congruence.
  - right. auto.
Qed.

Lemma in_get k v m : JsMap.wf m -> In (k, v) m -> JsMap.get k m = Some v.
Proof.
  unfold JsMap.wf. induction m as [| [a w] m IH]; cbn; intros Hwf H; [tauto |].
  inversion Hwf as [| ? ? Hnotin Hrest]; subst.
  destruct H as [H | H].
  - inversion H; subst. now rewrite String.eqb_refl.
  - destruct (String.eqb_spec a k) as [E | E]; [| auto].
    subst. exfalso. apply Hnotin. change k with (fst (k, v)).
    now apply in_map.
Qed.

Lemma get_set_same k v m : JsMap.get k (JsMap.set k v m) = Some v.
Proof.
  induction m as [| [a w] m IH]; cbn.
  - now rewrite String.eqb_refl.
  - destruct (String.eqb_spec a k) as [E | E]; cbn.
    + now rewrite String.eqb_refl.
    + destruct (String.eqb_spec a k); [contradiction | exact IH].
Qed.

Lemma set_absent k v m : JsMap.has k m = false -> JsMap.set k v m = m ++ [(k, v)].
Proof.
  rewrite has_false_iff.
  induction m as [| [a w] m IH]; cbn; intros H; [reflexivity |].
  destruct (String.eqb_spec a k) as [E | E].
  - exfalso. apply H. left. exact E.
  - f_equal. apply IH. intros Hin. apply H. right. exact Hin.
Qed.

Lemma filter_eqb_absent k (l : list string) :
  ~ In k l -> filter (String.eqb k) l = [].
Proof.
  induction l as [| b l IHl]; cbn; intros H; [reflexivity |].
  destruct (String.eqb_spec k b) as [E | E].
  - exfalso. apply H. left. congruence.
  - apply IHl. intros Hin. apply H. right. exact Hin.
Qed.

(** With unique keys an entry occurs once. *)
Lemma wf_count_le_1 k m :
  JsMap.wf m -> (List.length (filter (String.eqb k) (JsMap.keys m)) <= 1)%nat.
Proof.
  unfold JsMap.wf, JsMap.keys.
  induction m as [| [a w] m IH]; cbn; intros H; [lia |].
  inversion H as [| ? ? Hnotin Hrest]; subst.
  destruct (String.eqb_spec k a) as [E | E]; cbn; [| auto].
  subst. rewrite (filter_eqb_absent _ _ Hnotin). cbn. lia.
Qed.
End JsMapFacts.

(** ** The proximity search *)

Section Search.
Variables (playerRating : Z) (gameType0 : string) (excludeUserId : UserId).

Local Notation "'candidate'" := (is_candidate gameType0 excludeUserId).
Local Notation "'search_state'" :=
  (search_state playerRating gameType0 excludeUserId).
Local Notation "'search_result'" :=
  (search_result playerRating gameType0 excludeUserId).

Lemma getRatingDifference_distance (userId : UserId) (data : QueueEntry) :
  getRatingDifference playerRating (rating data)
  = distance playerRating (userId, data).
Proof. unfold getRatingDifference, distance. cbn [snd]. lia. Qed.

Lemma skip_iff_not_candidate (userId : UserId) (data : QueueEntry) :
  String.eqb userId excludeUserId || negb (String.eqb (gameType data) gameType0)
  = negb (candidate (userId, data)).
Proof.
  unfold is_candidate. cbn [fst snd].
  destruct (String.eqb userId excludeUserId), (String.eqb (gameType data) gameType0);
    reflexivity.
Qed.

Lemma findBestMatch_loop_spec entries : forall seen bestMatch smallest,
  search_state seen bestMatch smallest ->
  search_result (seen ++ entries)
    (findBestMatch_loop playerRating gameType0 excludeUserId entries
       bestMatch smallest).
Proof.
  induction entries as [| [userId data] rest IH]; intros seen best smallest Hst.
  - cbn [findBestMatch_loop]. rewrite app_nil_r.
    unfold search_state in Hst. unfold search_result.
    destruct best as [m |], smallest as [| d]; try contradiction; [| exact Hst].
    destruct Hst as (-> & Hc & b & a & Hsplit & Hmin & Hfirst). eauto 8.
  - cbn [findBestMatch_loop]. cbv zeta. rewrite skip_iff_not_candidate.
    replace (seen ++ (userId, data) :: rest)
      with ((seen ++ [(userId, data)]) ++ rest)
      by (rewrite <- app_assoc; reflexivity).
    destruct (candidate (userId, data)) eqn:Hcand; cbn [negb].
    + (* a candidate: compared with the best so far *)
      rewrite (getRatingDifference_distance userId).
      assert (Hentry : entry_of (mkBestMatch userId (rating data) (timestamp data) (gameType data))
                       = (userId, data)) by (destruct data; reflexivity).
      destruct best as [m |], smallest as [| d]; cbn in Hst; try contradiction.
      * destruct Hst as (Hd & Hc & b & a & Hsplit & Hmin & Hfirst).
        cbn [less_than].
        destruct (Z.ltb_spec (distance playerRating (userId, data)) d) as [Hlt | Hge].
        -- (* strictly closer: the new best *)
           apply IH. cbn. rewrite Hentry. cbn [snd].
           split; [reflexivity |]. split; [exact Hcand |].
           exists seen, []. split; [reflexivity |]. split.
           ++ intros kv Hin Hkv. apply in_app_or in Hin as [Hin | [<- | []]].
              ** specialize (Hmin kv Hin Hkv). lia.
              ** cbn [snd]. lia.
           ++ intros kv Hin Hkv. specialize (Hmin kv Hin Hkv). lia.
        -- (* not closer: the earlier one stays *)
           apply IH. cbn.
           split; [exact Hd |]. split; [exact Hc |].
           exists b, (a ++ [(userId, data)]). split.
           ++ rewrite Hsplit, <- app_assoc. reflexivity.
           ++ split; [| exact Hfirst].
              intros kv Hin Hkv. apply in_app_or in Hin as [Hin | [<- | []]].
              ** exact (Hmin kv Hin Hkv).
              ** cbn [snd]. lia.
      * (* first candidate *)
        cbn [less_than]. apply IH. cbn. rewrite Hentry. cbn [snd].
        split; [reflexivity |]. split; [exact Hcand |].
        exists seen, []. split; [reflexivity |]. split.
        -- intros kv Hin Hkv. apply in_app_or in Hin as [Hin | [<- | []]].
           ++ rewrite (Hst kv Hin) in Hkv. discriminate.
           ++ cbn [snd]. lia.
        -- intros kv Hin Hkv. rewrite (Hst kv Hin) in Hkv. discriminate.
    + (* skipped by [continue] *)
      apply IH. unfold search_state in *.
      destruct best as [m |], smallest as [| d]; try contradiction.
      * destruct Hst as (Hd & Hc & b & a & Hsplit & Hmin & Hfirst).
        split; [exact Hd |]. split; [exact Hc |].
        exists b, (a ++ [(userId, data)]). split.
        -- rewrite Hsplit, <- app_assoc. reflexivity.
        -- split; [| exact Hfirst].
           intros kv Hin Hkv. apply in_app_or in Hin as [Hin | [<- | []]].
           ++ exact (Hmin kv Hin Hkv).
           ++ rewrite Hcand in Hkv. discriminate.
      * intros kv Hin. apply in_app_or in Hin as [Hin | [<- | []]]; auto.
Qed.

(** Entries that are not candidates do not influence the search. *)
Lemma findBestMatch_loop_filter entries : forall bestMatch smallest,
  findBestMatch_loop playerRating gameType0 excludeUserId entries bestMatch smallest
  = findBestMatch_loop playerRating gameType0 excludeUserId
      (filter candidate entries) bestMatch smallest.
Proof.
  induction entries as [| [userId data] rest IH]; intros best smallest;
    [reflexivity |].
  cbn [findBestMatch_loop filter]. cbv zeta. rewrite skip_iff_not_candidate.
  destruct (candidate (userId, data)) eqn:Hcand; cbn [negb].
  - cbn [findBestMatch_loop]. cbv zeta.
    rewrite skip_iff_not_candidate, Hcand. cbn [negb].
    destruct (less_than _ smallest); apply IH.
  - apply IH.
Qed.

Lemma findBestMatch_spec (q : Queue) :
  search_result q (findBestMatch playerRating gameType0 excludeUserId q).
Proof.
  unfold findBestMatch, JsMap.entries.
  apply (findBestMatch_loop_spec q [] None Infinity).
  cbn. intros kv [].
Qed.
End Search.

Lemma findBestMatch_some r g x q m :
  findBestMatch r g x q = Some m ->
  In (entry_of m) q /\ bm_userId m <> x /\ bm_gameType m = g.
Proof.
  intros H. pose proof (findBestMatch_spec r g x q) as S. rewrite H in S.
  destruct S as (Hc & b & a & Hsplit & _). split.
  - rewrite Hsplit. apply in_or_app. right. left. reflexivity.
  - unfold is_candidate in Hc. cbn in Hc. apply andb_true_iff in Hc as [H1 H2].
    split.
    + destruct (String.eqb_spec (bm_userId m) x); [discriminate | assumption].
    + now apply String.eqb_eq.
Qed.

Lemma findBestMatch_none r g x q :
  findBestMatch r g x q = None ->
  forall kv, In kv q -> is_candidate g x kv = false.
Proof.
  intros H. pose proof (findBestMatch_spec r g x q) as S. rewrite H in S. exact S.
Qed.

(** C2. For every queue, requester rating, game type and requester id, the
    search looks at exactly the entries of the requester's game type that
    belong to another user (the other entries can be dropped without
    changing the answer; the answer is [null] exactly when there is no such
    entry), and it returns one of them at the least distance
    [|candidate.rating - requester.rating|]; every candidate met earlier in
    the iteration order is strictly farther, so among the closest ones the
    first met is returned. *)
Theorem findBestMatch_closest_first (playerRating : Z) (gameType0 : string)
    (excludeUserId : UserId) (q : Queue) :
  findBestMatch playerRating gameType0 excludeUserId q
  = findBestMatch playerRating gameType0 excludeUserId
      (filter (is_candidate gameType0 excludeUserId) q)
  /\
  match findBestMatch playerRating gameType0 excludeUserId q with
  | None => filter (is_candidate gameType0 excludeUserId) q = []
  | Some m =>
      exists before after,
        q = before ++ entry_of m :: after /\
        is_candidate gameType0 excludeUserId (entry_of m) = true /\
        (forall kv, In kv q -> is_candidate gameType0 excludeUserId kv = true ->
           Z.abs (bm_rating m - playerRating)
           <= Z.abs (rating (snd kv) - playerRating)) /\
        (forall kv, In kv before -> is_candidate gameType0 excludeUserId kv = true ->
           Z.abs (bm_rating m - playerRating)
           < Z.abs (rating (snd kv) - playerRating))
  end.
Proof.
  split.
  - apply findBestMatch_loop_filter.
  - pose proof (findBestMatch_spec playerRating gameType0 excludeUserId q) as S.
    destruct (findBestMatch playerRating gameType0 excludeUserId q) as [m |].
    + destruct S as (Hc & b & a & Hsplit & Hmin & Hfirst).
      exists b, a. repeat split; assumption.
    + cbn in S. induction q as [| kv q IH]; [reflexivity |].
      cbn [filter]. rewrite (S kv (or_introl eq_refl)).
      apply IH. intros kv' Hin. apply S. right. exact Hin.
Qed.

(** ** The handlers, case by case *)

Lemma startMatchmaking_eq env userId gameType0 w :
  startMatchmaking env userId gameType0 w =
  if env_fails env UserLookup then (Failure "Matchmaking failed", w)
  else
    match env_users env userId with
    | None => (UserNotFound, w)
    | Some row =>
        let q1 := JsMap.delete userId (queue w) in
        match findBestMatch (row_rating row) gameType0 userId q1 with
        | Some m =>
            let q2 := JsMap.delete (bm_userId m) q1 in
            if env_fails env OpponentLookup || env_fails env GameCreate
            then (Failure "Matchmaking failed", mkWorld q2 (games w))
            else
              let game := started_game env gameType0 (bm_userId m) userId in
              (MatchFound game, mkWorld q2 (games w ++ [game]))
        | None =>
            let q2 := JsMap.set userId
                        (mkEntry (row_rating row) (env_now env) gameType0) q1 in
            (Searching (JsMap.size q2), mkWorld q2 (games w))
        end
    end.
Proof.
  unfold startMatchmaking, startMatchmaking_body. unfold_handler.
  destruct (env_fails env UserLookup); [reflexivity |].
  destruct (env_users env userId) as [row |]; [| reflexivity].
  cbv zeta. cbn [user_rating].
  assert (Hq : queue (if JsMap.has userId (queue w)
                      then mkWorld (JsMap.delete userId (queue w)) (games w)
                      else w) = JsMap.delete userId (queue w)
               /\ games (if JsMap.has userId (queue w)
                      then mkWorld (JsMap.delete userId (queue w)) (games w)
                      else w) = games w).
  { destruct (JsMap.has userId (queue w)) eqn:Hhas; cbn; [tauto |].
    now rewrite delete_absent. }
  destruct Hq as [Hq Hg].
  destruct (JsMap.has userId (queue w)); cbn [queue games] in *.
  - destruct (findBestMatch _ _ _ _) as [m |]; [| reflexivity].
    cbn [queue games]. destruct (env_fails env OpponentLookup); [reflexivity |].
    destruct (env_fails env GameCreate); reflexivity.
  - rewrite <- Hq.
    destruct (findBestMatch _ _ _ _) as [m |]; [| reflexivity].
    cbn [queue games]. destruct (env_fails env OpponentLookup); [reflexivity |].
    destruct (env_fails env GameCreate); reflexivity.
Qed.

Lemma cancelMatchmaking_eq userId w :
  cancelMatchmaking userId w =
  if JsMap.has userId (queue w)
  then (Cancelled, mkWorld (JsMap.delete userId (queue w)) (games w))
  else (NotInMatchmakingQueue, w).
Proof.
  unfold cancelMatchmaking, cancelMatchmaking_body. unfold_handler.
  destruct (JsMap.has userId (queue w)); reflexivity.
Qed.

Lemma checkMatchmakingStatus_eq env userId gameType0 w :
  checkMatchmakingStatus env userId gameType0 w =
  if JsMap.has userId (queue w) then
    if env_fails env UserLookup
    then (Failure "Failed to check matchmaking status", w)
    else
      match env_users env userId with
      | None => (Failure "Failed to check matchmaking status", w)
      | Some row =>
          match findBestMatch (row_rating row) gameType0 userId (queue w) with
          | Some m =>
              let q2 := JsMap.delete (bm_userId m)
                          (JsMap.delete userId (queue w)) in
              if env_fails env GameCreate
              then (Failure "Failed to check matchmaking status",
                    mkWorld q2 (games w))
              else
                let game := polled_game env gameType0 userId (bm_userId m) in
                (MatchFound game, mkWorld q2 (games w ++ [game]))
          | None => (StillSearching (JsMap.size (queue w)), w)
          end
      end
  else
    if env_fails env GameFindFirst
    then (Failure "Failed to check matchmaking status", w)
    else
      match latest (filter (recent_game_of userId gameType0 (env_now env - 30000))
                      (games w)) None with
      | Some g => (MatchFound (include_players env (game_id g) (game_data g)), w)
      | None => (NotInQueue, w)
      end.
Proof.
  unfold checkMatchmakingStatus, checkMatchmakingStatus_body. unfold_handler.
  destruct (JsMap.has userId (queue w)); cbn [negb].
  - destruct (env_fails env UserLookup); [reflexivity |].
    destruct (env_users env userId) as [row |]; [| reflexivity].
    cbn [user_rating].
    destruct (findBestMatch _ _ _ _) as [m |]; [| reflexivity].
    cbn [queue games]. destruct (env_fails env GameCreate); reflexivity.
  - destruct (env_fails env GameFindFirst); [reflexivity |].
    destruct (latest _ _); reflexivity.
Qed.

(** With unique keys, the clean-up loop keeps exactly the entries that are
    not older than [TIMEOUT], in their order. *)
Lemma cleanup_loop_filter now (q : Queue) :
  JsMap.wf q ->
  cleanup_loop now (JsMap.entries q) q
  = filter (fun kv => negb (now - timestamp (snd kv) >? TIMEOUT)) q.
Proof.
  unfold JsMap.entries.
  (* generalised: the entries still to visit are a suffix whose keys do not
     occur among the entries already kept *)
  enough (G : forall rest kept,
             JsMap.wf (kept ++ rest) ->
             cleanup_loop now rest (kept ++ rest)
             = kept ++ filter (fun kv => negb (now - timestamp (snd kv) >? TIMEOUT)) rest).
  { intros Hwf. exact (G q [] Hwf). }
  induction rest as [| [userId data] rest IH]; intros kept Hwf.
  - reflexivity.
  - cbn [cleanup_loop filter snd].
    assert (Hwf' : JsMap.wf ((kept ++ [(userId, data)]) ++ rest))
      by (rewrite <- app_assoc; exact Hwf).
    destruct (now - timestamp data >? TIMEOUT) eqn:Hold; cbn [negb].
    + assert (Hdel : JsMap.delete userId (kept ++ (userId, data) :: rest) = kept ++ rest).
      { unfold JsMap.wf, JsMap.keys in Hwf. rewrite map_app in Hwf. cbn [map fst] in Hwf.
        apply NoDup_remove_2 in Hwf.
        unfold JsMap.delete. rewrite filter_app. cbn [filter fst].
        rewrite String.eqb_refl. cbn [negb].
        assert (Hid : forall l : Queue, ~ In userId (map fst l) ->
                  filter (fun kv => negb (String.eqb (fst kv) userId)) l = l).
        { intros l Hl. apply (delete_absent userId l). now apply has_false_iff. }
        rewrite !Hid; [reflexivity | |];
          intros Hin; apply Hwf; apply in_or_app; auto. }
      rewrite Hdel. apply IH.
      unfold JsMap.wf, JsMap.keys in *. rewrite map_app in *. cbn [map fst] in Hwf.
      now apply NoDup_remove_1 in Hwf.
    + replace (kept ++ (userId, data) :: rest)
        with ((kept ++ [(userId, data)]) ++ rest)
        by (rewrite <- app_assoc; reflexivity).
      rewrite (IH _ Hwf'). rewrite <- app_assoc. reflexivity.
Qed.

(** ** One entry per player *)

Lemma filter_wf (f : UserId * QueueEntry -> bool) (q : Queue) :
  JsMap.wf q -> JsMap.wf (filter f q).
Proof.
  unfold JsMap.wf, JsMap.keys. induction q as [| kv q IH]; cbn; intros H.
  - constructor.
  - inversion H as [| ? ? Hnotin Hrest]; subst.
    destruct (f kv); cbn; [| auto].
    constructor; [| auto].
    intros Hin. apply Hnotin. apply in_map_iff in Hin as [kv' [E Hin]].
    apply filter_In in Hin as [Hin _]. rewrite <- E. now apply in_map.
Qed.

Lemma startMatchmaking_wf env userId gameType0 w :
  JsMap.wf (queue w) ->
  JsMap.wf (queue (snd (startMatchmaking env userId gameType0 w))).
Proof.
  intros Hwf. rewrite startMatchmaking_eq.
  destruct (env_fails env UserLookup); [exact Hwf |].
  destruct (env_users env userId) as [row |]; [| exact Hwf].
  cbv zeta. destruct (findBestMatch _ _ _ _) as [m |].
  - destruct (_ || _); cbn; auto using delete_wf.
  - cbn. auto using set_wf, delete_wf.
Qed.

Lemma cancelMatchmaking_wf userId w :
  JsMap.wf (queue w) -> JsMap.wf (queue (snd (cancelMatchmaking userId w))).
Proof.
  intros Hwf. rewrite cancelMatchmaking_eq.
  destruct (JsMap.has userId (queue w)); cbn; auto using delete_wf.
Qed.

Lemma checkMatchmakingStatus_wf env userId gameType0 w :
  JsMap.wf (queue w) ->
  JsMap.wf (queue (snd (checkMatchmakingStatus env userId gameType0 w))).
Proof.
  intros Hwf. rewrite checkMatchmakingStatus_eq.
  destruct (JsMap.has userId (queue w)).
  - destruct (env_fails env UserLookup); [exact Hwf |].
    destruct (env_users env userId) as [row |]; [| exact Hwf].
    destruct (findBestMatch _ _ _ _) as [m |]; [| exact Hwf].
    cbv zeta. destruct (env_fails env GameCreate); cbn; auto using delete_wf.
  - destruct (env_fails env GameFindFirst); [exact Hwf |].
    destruct (latest _ _); exact Hwf.
Qed.

Lemma cleanup_wf now w :
  JsMap.wf (queue w) -> JsMap.wf (queue (cleanup now w)).
Proof.
  intros Hwf. unfold cleanup. cbn [queue].
  rewrite (cleanup_loop_filter now _ Hwf). now apply filter_wf.
Qed.

Lemma step_wf op w :
  JsMap.wf (queue w) -> JsMap.wf (queue (snd (step op w))).
Proof.
  intros Hwf. destruct op as [env u g | u | env u g | now]; cbn [step].
  - pose proof (startMatchmaking_wf env u g w Hwf) as H.
    destruct (startMatchmaking env u g w). exact H.
  - pose proof (cancelMatchmaking_wf u w Hwf) as H.
    destruct (cancelMatchmaking u w). exact H.
  - pose proof (checkMatchmakingStatus_wf env u g w Hwf) as H.
    destruct (checkMatchmakingStatus env u g w). exact H.
  - now apply cleanup_wf.
Qed.

Lemma run_wf ops : forall w,
  JsMap.wf (queue w) -> JsMap.wf (queue (run ops w)).
Proof.
  induction ops as [| op ops IH]; intros w Hwf; cbn [run]; [exact Hwf |].
  apply IH. now apply step_wf.
Qed.

Lemma initial_wf stored : JsMap.wf (queue (initial stored)).
Proof. constructor. Qed.

Lemma reachable_wf ops stored : JsMap.wf (queue (run ops (initial stored))).
Proof. apply run_wf, initial_wf. Qed.

Lemma entries_of_player_present userId (q : Queue) :
  JsMap.wf q -> JsMap.has userId q = true -> entries_of_player userId q = 1%nat.
Proof.
  unfold entries_of_player, JsMap.wf. rewrite has_true_iff. unfold JsMap.keys.
  induction q as [| [a d] q IH]; cbn; intros Hwf Hin; [contradiction |].
  inversion Hwf as [| ? ? Hnotin Hrest]; subst.
  destruct (String.eqb_spec userId a) as [E | E].
  - subst. cbn. now rewrite (filter_eqb_absent _ _ Hnotin).
  - apply IH; [exact Hrest |]. destruct Hin as [Hin | Hin]; congruence.
Qed.

Lemma entries_of_player_absent userId (q : Queue) :
  JsMap.has userId q = false -> entries_of_player userId q = 0%nat.
Proof.
  unfold entries_of_player. rewrite has_false_iff.
  intros H. now rewrite (filter_eqb_absent _ _ H).
Qed.

Lemma has_set_same {V} k (v : V) m : JsMap.has k (JsMap.set k v m) = true.
Proof. unfold JsMap.has. now rewrite get_set_same. Qed.

Lemma has_delete_other {V} k k' (m : JsMap.t V) :
  JsMap.has k m = false -> JsMap.has k (JsMap.delete k' m) = false.
Proof.
  rewrite !has_false_iff. intros H Hin. apply in_keys_delete in Hin. tauto.
Qed.

(** C1, as the code has it. For every sequence of start, cancel, status and
    clean-up operations the queue holds at most one entry per player.  A
    start request of a player who is in the queue never leaves two entries
    for them: when it answers "searching", the player has exactly one
    entry, carrying the freshly read rating, the time of the request and
    the requested game type; when it answers "matched", the player's old
    entry is gone and no new one is inserted. *)
Theorem queue_one_entry_per_player (ops : list Op) (stored : list Game)
    (env : Env) (userId : UserId) (gameType0 : string) :
  let w := run ops (initial stored) in
  let r := fst (startMatchmaking env userId gameType0 w) in
  let w' := snd (startMatchmaking env userId gameType0 w) in
  JsMap.wf (queue w) /\
  (forall player, (entries_of_player player (queue w) <= 1)%nat) /\
  (JsMap.has userId (queue w) = true ->
   JsMap.wf (queue w') /\
   (forall n, r = Searching n ->
      entries_of_player userId (queue w') = 1%nat /\
      exists row, env_users env userId = Some row /\
        JsMap.get userId (queue w')
        = Some (mkEntry (row_rating row) (env_now env) gameType0)) /\
   (forall game, r = MatchFound game ->
      entries_of_player userId (queue w') = 0%nat)).
Proof.
  intros w r w'. pose proof (reachable_wf ops stored) as Hwf. fold w in Hwf.
  split; [exact Hwf |]. split; [intros p; now apply wf_count_le_1 |].
  intros _. split; [now apply startMatchmaking_wf |].
  subst r w'. rewrite startMatchmaking_eq.
  destruct (env_fails env UserLookup); [split; intros; discriminate |].
  destruct (env_users env userId) as [row |]; [| split; intros; discriminate].
  cbv zeta. destruct (findBestMatch _ _ _ _) as [m |].
  - destruct (_ || _); cbn [fst snd queue]; (split; [intros; discriminate |]);
      intros game Hr; [discriminate |].
    apply entries_of_player_absent, has_delete_other, has_delete_same.
  - cbn [fst snd queue]. split; [| intros; discriminate].
    intros n _. split.
    + apply entries_of_player_present; [| apply has_set_same].
      apply set_wf, delete_wf, Hwf.
    + exists row. split; [reflexivity | apply get_set_same].
Qed.

(** The theorem at a queue that holds alice: her second start request for
    the same game replaces her entry. *)
Lemma queue_one_entry_per_player_witness :
  let w := run [OpStart (healthy 0) "alice" "ayo"] (initial []) in
  let w' := snd (startMatchmaking (healthy 7) "alice" "ayo" w) in
  JsMap.has "alice" (queue w) = true /\
  JsMap.wf (queue w') /\
  entries_of_player "alice" (queue w') = 1%nat /\
  JsMap.get "alice" (queue w') = Some (mkEntry 1000 7 "ayo").
Proof.
  pose proof (queue_one_entry_per_player
                [OpStart (healthy 0) "alice" "ayo"] [] (healthy 7) "alice" "ayo")
    as (_ & _ & H).
  split; [reflexivity |].
  destruct (H eq_refl) as (Hwf & Hsearch & _).
  split; [exact Hwf |].
  destruct (Hsearch 1%nat eq_refl) as (Hone & row & Hrow & Hget).
  split; [exact Hone |].
  vm_compute in Hrow. injection Hrow as <-. exact Hget.
Defined.

(** C1, as stated, fails: alice waits for "ayo", bob waits for "ludo"; a
    start request of alice for "ludo" matches her with bob, and her old
    entry is removed without a replacement. *)
Lemma reenqueue_not_replaced_counterexample :
  let w := run [OpStart (healthy 0) "alice" "ayo";
                OpStart (healthy 1) "bob" "ludo"] (initial []) in
  let r := fst (startMatchmaking (healthy 2) "alice" "ludo" w) in
  let w' := snd (startMatchmaking (healthy 2) "alice" "ludo" w) in
  JsMap.has "alice" (queue w) = true /\
  r = MatchFound (started_game (healthy 2) "ludo" "bob" "alice") /\
  JsMap.get "alice" (queue w') = None.
Proof. vm_compute. repeat split. Qed.

(** ** Two players of one game type *)

(** C3. From the empty queue, when A (rating 1000) sends a start request
    for a game type and then B (rating 1050) sends one for the same game
    type, and the store answers every call, A is told to wait, B's request
    answers "matched" with a game between A (the first player) and B, and
    afterwards the queue holds no entry of that game type: A's entry has
    been removed and B has not been inserted. *)
Theorem second_player_is_matched_with_first (envA envB : Env) (A B : UserId)
    (gameType0 : string) (stored : list Game) (rowA rowB : UserRow) :
  A <> B ->
  db_up envA -> db_up envB ->
  env_users envA A = Some rowA -> row_rating rowA = 1000 ->
  env_users envB B = Some rowB -> row_rating rowB = 1050 ->
  let wA := snd (startMatchmaking envA A gameType0 (initial stored)) in
  let rB := fst (startMatchmaking envB B gameType0 wA) in
  let wB := snd (startMatchmaking envB B gameType0 wA) in
  let game := started_game envB gameType0 A B in
  fst (startMatchmaking envA A gameType0 (initial stored)) = Searching 1 /\
  JsMap.get A (queue wA) = Some (mkEntry 1000 (env_now envA) gameType0) /\
  rB = MatchFound game /\
  player1Id (game_data game) = A /\
  player2Id (game_data game) = Some B /\
  game_gameType (game_data game) = gameType0 /\
  partition_of gameType0 (queue wB) = [] /\
  JsMap.has A (queue wB) = false /\
  JsMap.has B (queue wB) = false /\
  games wB = stored ++ [game].
Proof.
  intros Hne HupA HupB HA HrA HB HrB wA rB wB game.
  assert (EA : startMatchmaking envA A gameType0 (initial stored)
               = (Searching 1,
                  mkWorld [(A, mkEntry 1000 (env_now envA) gameType0)] stored)).
  { rewrite startMatchmaking_eq, (HupA UserLookup), HA, HrA. reflexivity. }
  assert (EB : startMatchmaking envB B gameType0 wA
               = (MatchFound game, mkWorld [] (stored ++ [game]))).
  { subst wA. rewrite EA. cbn [snd].
    rewrite startMatchmaking_eq, (HupB UserLookup), HB, HrB. cbn [queue games].
    assert (HAB : String.eqb A B = false) by now apply String.eqb_neq.
    unfold JsMap.delete, findBestMatch, JsMap.entries.
    cbn [filter fst]. rewrite HAB. cbn [negb].
    cbn [findBestMatch_loop gameType]. rewrite HAB, String.eqb_refl.
    cbn [negb orb]. cbv zeta. cbn [less_than bm_userId filter fst].
    rewrite String.eqb_refl, (HupB OpponentLookup), (HupB GameCreate).
    reflexivity. }
  subst rB wB. rewrite EB. subst wA. rewrite EA. cbn [fst snd queue games].
  cbn [JsMap.get]. rewrite String.eqb_refl. repeat split.
Qed.

(** The theorem for alice and bob. *)
Lemma second_player_is_matched_with_first_witness :
  fst (startMatchmaking (healthy 5) "bob" "ayo"
         (snd (startMatchmaking (healthy 0) "alice" "ayo" (initial []))))
  = MatchFound (started_game (healthy 5) "ayo" "alice" "bob")
  /\ queue (snd (startMatchmaking (healthy 5) "bob" "ayo"
                  (snd (startMatchmaking (healthy 0) "alice" "ayo" (initial [])))))
     = [].
Proof.
  assert (Hne : "alice" <> "bob") by discriminate.
  pose proof (second_player_is_matched_with_first
                (healthy 0) (healthy 5) "alice" "bob" "ayo" []
                (mkUserRow (Some "Alice") 1000) (mkUserRow (Some "Bob") 1050)
                Hne (fun _ => eq_refl) (fun _ => eq_refl)
                eq_refl eq_refl eq_refl eq_refl)
    as (_ & _ & HrB & _).
  split; [exact HrB | reflexivity].
Defined.

(** ** Nobody is matched with themselves *)

Lemma findBestMatch_no_candidate r g x (q : Queue) :
  (forall kv, In kv q -> is_candidate g x kv = false) ->
  findBestMatch r g x q = None.
Proof.
  intros H. destruct (findBestMatch r g x q) as [m |] eqn:E; [| reflexivity].
  pose proof (findBestMatch_spec r g x q) as S. rewrite E in S.
  destruct S as (Hc & b & a & Hsplit & _).
  rewrite H in Hc; [discriminate |].
  rewrite Hsplit. apply in_or_app. right. left. reflexivity.
Qed.

Lemma latest_in rows : forall best g,
  latest rows best = Some g -> In g rows \/ best = Some g.
Proof.
  induction rows as [| row rows IH]; intros best g H; cbn in H; [now right |].
  destruct best as [b |].
  - destruct (started b <? started row); apply IH in H as [H | H].
    + left. now right.
    + left. left. congruence.
    + left. now right.
    + now right.
  - apply IH in H as [H | H]; [left; now right | left; left; congruence].
Qed.

Lemma started_game_two_players env g waiting joining :
  waiting <> joining -> two_players (started_game env g waiting joining).
Proof. unfold two_players. cbn. congruence. Qed.

Lemma polled_game_two_players env g polling waiting :
  waiting <> polling -> two_players (polled_game env g polling waiting).
Proof. unfold two_players. cbn. congruence. Qed.

Lemma Forall_snoc {A} (P : A -> Prop) l x :
  Forall P l -> P x -> Forall P (l ++ [x]).
Proof. intros Hl Hx. apply Forall_app. split; [exact Hl | now constructor]. Qed.

(** Every answer "matched" carries a game of two different players, and
    the games table keeps holding only such games. *)
Lemma step_two_players op w :
  Forall two_players (games w) ->
  Forall two_players (games (snd (step op w))) /\
  forall game, fst (step op w) = Some (MatchFound game) -> two_players game.
Proof.
  intros Hg. destruct op as [env u g | u | env u g | now]; cbn [step].
  - rewrite startMatchmaking_eq.
    destruct (env_fails env UserLookup); [split; [exact Hg | discriminate] |].
    destruct (env_users env u) as [row |]; [| split; [exact Hg | discriminate]].
    cbv zeta. destruct (findBestMatch _ _ _ _) as [m |] eqn:Hm.
    + apply findBestMatch_some in Hm as (_ & Hne & _).
      destruct (_ || _); cbn [fst snd games]; [split; [exact Hg | discriminate] |].
      pose proof (started_game_two_players env g _ _ Hne) as Htwo.
      split; [now apply Forall_snoc |].
      intros game [= <-]. exact Htwo.
    + cbn [fst snd games]. split; [exact Hg | discriminate].
  - rewrite cancelMatchmaking_eq.
    destruct (JsMap.has u (queue w)); cbn [fst snd games];
      (split; [exact Hg | discriminate]).
  - rewrite checkMatchmakingStatus_eq. destruct (JsMap.has u (queue w)).
    + destruct (env_fails env UserLookup); [split; [exact Hg | discriminate] |].
      destruct (env_users env u) as [row |]; [| split; [exact Hg | discriminate]].
      destruct (findBestMatch _ _ _ _) as [m |] eqn:Hm;
        [| split; [exact Hg | discriminate]].
      apply findBestMatch_some in Hm as (_ & Hne & _).
      cbv zeta. destruct (env_fails env GameCreate); cbn [fst snd games];
        [split; [exact Hg | discriminate] |].
      pose proof (polled_game_two_players env g u _ Hne) as Htwo.
      split; [now apply Forall_snoc |].
      intros game [= <-]. exact Htwo.
    + destruct (env_fails env GameFindFirst); [split; [exact Hg | discriminate] |].
      destruct (latest _ _) as [found |] eqn:Hl; cbn [fst snd];
        [| split; [exact Hg | discriminate]].
      split; [exact Hg |]. intros game [= <-].
      apply latest_in in Hl as [Hl | Hl]; [| discriminate].
      apply filter_In in Hl as [Hl _].
      rewrite Forall_forall in Hg. exact (Hg _ Hl).
  - cbn [fst snd cleanup games]. split; [exact Hg | discriminate].
Qed.

Lemma run_two_players ops : forall w,
  Forall two_players (games w) -> Forall two_players (games (run ops w)).
Proof.
  induction ops as [| op ops IH]; intros w Hg; cbn [run]; [exact Hg |].
  apply IH. now apply step_two_players.
Qed.

(** C4. After every sequence of operations, a game created by a start
    request or by a status request is between two different users, so an
    answer "matched" that carries it never pairs a player with themselves;
    when moreover the games the store held at start-up are between two
    different users, this holds for every answer "matched" of every
    operation, the games a status request reads back from the store
    included.  In particular a status request of a player whose own entry
    is the only entry of the polled game type is never answered
    "matched". *)
Theorem never_matched_with_oneself (ops : list Op) (stored : list Game) :
  let w := run ops (initial stored) in
  (forall env userId gameType0 game,
     fst (startMatchmaking env userId gameType0 w) = MatchFound game ->
     player2Id (game_data game) = Some userId /\
     player1Id (game_data game) <> userId) /\
  (forall env userId gameType0 game,
     JsMap.has userId (queue w) = true ->
     fst (checkMatchmakingStatus env userId gameType0 w) = MatchFound game ->
     player1Id (game_data game) = userId /\
     player2Id (game_data game) <> Some userId) /\
  (Forall two_players stored ->
   forall op game,
     fst (step op w) = Some (MatchFound game) -> two_players game) /\
  (forall env userId gameType0,
     JsMap.has userId (queue w) = true ->
     (forall kv, In kv (queue w) ->
        gameType (snd kv) = gameType0 -> fst kv = userId) ->
     forall game,
       fst (checkMatchmakingStatus env userId gameType0 w) <> MatchFound game).
Proof.
  intros w. split; [| split; [| split]].
  - intros env u g game. rewrite startMatchmaking_eq.
    destruct (env_fails env UserLookup); [discriminate |].
    destruct (env_users env u) as [row |]; [| discriminate].
    cbv zeta. destruct (findBestMatch _ _ _ _) as [m |] eqn:Hm; [| discriminate].
    destruct (_ || _); cbn [fst]; [discriminate |].
    intros [= <-]. apply findBestMatch_some in Hm as (_ & Hne & _).
    cbn. split; [reflexivity | exact Hne].
  - intros env u g game Hhas. rewrite checkMatchmakingStatus_eq, Hhas.
    destruct (env_fails env UserLookup); [discriminate |].
    destruct (env_users env u) as [row |]; [| discriminate].
    destruct (findBestMatch _ _ _ _) as [m |] eqn:Hm; [| discriminate].
    cbv zeta. destruct (env_fails env GameCreate); cbn [fst]; [discriminate |].
    intros [= <-]. apply findBestMatch_some in Hm as (_ & Hne & _).
    cbn. split; [reflexivity | congruence].
  - intros Hstored op game. apply step_two_players.
    subst w. now apply run_two_players.
  - intros env u g Hhas Hlone game.
    rewrite checkMatchmakingStatus_eq, Hhas.
    destruct (env_fails env UserLookup); [discriminate |].
    destruct (env_users env u) as [row |]; [| discriminate].
    rewrite findBestMatch_no_candidate; [discriminate |].
    intros [k d] Hin. unfold is_candidate. cbn [fst snd].
    destruct (String.eqb_spec (gameType d) g) as [E | E];
      [| now rewrite andb_false_r].
    pose proof (Hlone _ Hin E) as Hk. cbn [fst] in Hk. subst k.
    now rewrite String.eqb_refl.
Qed.

(** The theorem after alice and bob have been matched and carol waits
    alone: carol's status request is not answered "matched", and the game
    of dave's start request is between carol and dave. *)
Lemma never_matched_with_oneself_witness :
  let w := run [OpStart (healthy 0) "alice" "ayo";
                OpStart (healthy 1) "bob" "ayo";
                OpStart (healthy 2) "carol" "ayo"] (initial []) in
  two_players (started_game (healthy 3) "ayo" "carol" "dave") /\
  player1Id (game_data (started_game (healthy 3) "ayo" "carol" "dave")) <> "dave" /\
  fst (checkMatchmakingStatus (healthy 3) "carol" "ayo" w)
  <> MatchFound (polled_game (healthy 3) "ayo" "carol" "carol").
Proof.
  pose proof (never_matched_with_oneself
                [OpStart (healthy 0) "alice" "ayo";
                 OpStart (healthy 1) "bob" "ayo";
                 OpStart (healthy 2) "carol" "ayo"] [])
    as (Hstart & _ & Hstep & Hlone).
  split; [| split].
  - apply (Hstep (Forall_nil _) (OpStart (healthy 3) "dave" "ayo")). reflexivity.
  - apply (Hstart (healthy 3) "dave" "ayo"). reflexivity.
  - apply Hlone; [reflexivity |].
    intros kv [<- | []] _. reflexivity.
Defined.

(** ** Game types *)

(** C5, as the code has it. For every queue, a start or status request for
    a game type is matched only with a waiting entry that was stored with
    that same game type, whatever the ratings are: an entry stored with
    another game type is never the opponent, and the game created has the
    requested game type.  For a status request the game type is the one
    named in the poll. *)
Theorem opponent_has_requested_game_type (env : Env) (userId : UserId)
    (gameType0 : string) (w : World) (game : Game) :
  JsMap.wf (queue w) ->
  (fst (startMatchmaking env userId gameType0 w) = MatchFound game ->
   game_gameType (game_data game) = gameType0 /\
   (exists data, In (player1Id (game_data game), data) (queue w) /\
                 gameType data = gameType0) /\
   (forall kv, In kv (queue w) -> gameType (snd kv) <> gameType0 ->
      player1Id (game_data game) <> fst kv))
  /\
  (JsMap.has userId (queue w) = true ->
   fst (checkMatchmakingStatus env userId gameType0 w) = MatchFound game ->
   game_gameType (game_data game) = gameType0 /\
   (exists opponent data,
      player2Id (game_data game) = Some opponent /\
      In (opponent, data) (queue w) /\ gameType data = gameType0) /\
   (forall kv, In kv (queue w) -> gameType (snd kv) <> gameType0 ->
      player2Id (game_data game) <> Some (fst kv))).
Proof.
  intros Hwf. split.
  - rewrite startMatchmaking_eq.
    destruct (env_fails env UserLookup); [discriminate |].
    destruct (env_users env userId) as [row |]; [| discriminate].
    cbv zeta. destruct (findBestMatch _ _ _ _) as [m |] eqn:Hm; [| discriminate].
    destruct (_ || _); cbn [fst]; [discriminate |].
    intros [= <-]. cbn.
    apply findBestMatch_some in Hm as (Hin & _ & Hg).
    apply in_delete in Hin as [Hin _].
    split; [reflexivity |]. split; [eauto |].
    intros [k d] Hkv Hne E. cbn [fst snd] in *. subst k.
    unfold entry_of in Hin.
    pose proof (in_get _ _ _ Hwf Hin) as G1.
    pose proof (in_get _ _ _ Hwf Hkv) as G2.
    rewrite G1 in G2. injection G2 as <-. cbn in Hne. contradiction.
  - intros Hhas. rewrite checkMatchmakingStatus_eq, Hhas.
    destruct (env_fails env UserLookup); [discriminate |].
    destruct (env_users env userId) as [row |]; [| discriminate].
    destruct (findBestMatch _ _ _ _) as [m |] eqn:Hm; [| discriminate].
    cbv zeta. destruct (env_fails env GameCreate); cbn [fst]; [discriminate |].
    intros [= <-]. cbn.
    apply findBestMatch_some in Hm as (Hin & _ & Hg).
    split; [reflexivity |]. split; [eauto |].
    intros [k d] Hkv Hne [= E]. cbn [fst snd] in *. subst k.
    unfold entry_of in Hin.
    pose proof (in_get _ _ _ Hwf Hin) as G1.
    pose proof (in_get _ _ _ Hwf Hkv) as G2.
    rewrite G1 in G2. injection G2 as <-. cbn in Hne. contradiction.
Qed.

(** The theorem at a queue where carol waits for "ludo" and dave for "ayo":
    bob's start request for "ayo" is matched with dave, although carol's
    rating is as far from bob's as dave's. *)
Lemma opponent_has_requested_game_type_witness :
  let w := mkWorld [("carol", mkEntry 1200 0 "ludo");
                    ("dave", mkEntry 900 1 "ayo")] [] in
  let game := started_game (healthy 2) "ayo" "dave" "bob" in
  JsMap.wf (queue w) /\
  fst (startMatchmaking (healthy 2) "bob" "ayo" w) = MatchFound game /\
  player1Id (game_data game) <> "carol".
Proof.
  assert (Hwf : JsMap.wf [("carol", mkEntry 1200 0 "ludo");
                          ("dave", mkEntry 900 1 "ayo")]).
  { repeat constructor; cbn; intuition discriminate. }
  split; [exact Hwf |]. split; [reflexivity |].
  pose proof (opponent_has_requested_game_type (healthy 2) "bob" "ayo"
                (mkWorld [("carol", mkEntry 1200 0 "ludo");
                          ("dave", mkEntry 900 1 "ayo")] [])
                (started_game (healthy 2) "ayo" "dave" "bob") Hwf)
    as [Hstart _].
  destruct (Hstart eq_refl) as (_ & _ & Hother).
  apply (Hother ("carol", mkEntry 1200 0 "ludo")).
  - left. reflexivity.
  - discriminate.
Defined.

(** C5, as stated, fails for a status request: alice waits with an entry
    of game type "ayo" and bob with an entry of game type "ludo"; alice
    polls her status naming "ludo", and the two entries are matched. *)
Lemma status_pairs_entries_of_two_game_types_counterexample :
  let w := run [OpStart (healthy 0) "alice" "ayo";
                OpStart (healthy 1) "bob" "ludo"] (initial []) in
  JsMap.get "alice" (queue w) = Some (mkEntry 1000 0 "ayo") /\
  JsMap.get "bob" (queue w) = Some (mkEntry 1050 1 "ludo") /\
  checkMatchmakingStatus (healthy 2) "alice" "ludo" w
  = (MatchFound (polled_game (healthy 2) "ludo" "alice" "bob"),
     mkWorld [] [polled_game (healthy 2) "ludo" "alice" "bob"]).
Proof. vm_compute. repeat split. Qed.

(** ** The clean-up pass *)

(** C6, as the code has it. After one clean-up pass at time [now], every
    entry whose age is more than 5 minutes is absent from the queue, and
    every entry whose age is at most 5 minutes is still present, unchanged
    and in the same order; the games are untouched.  Two consecutive
    firings of the timer are 60 seconds apart. *)
Theorem cleanup_removes_entries_older_than_5_minutes (now : Z) (w : World) :
  JsMap.wf (queue w) ->
  (forall userId data,
     In (userId, data) (queue w) -> age now data > 5 * 60 * 1000 ->
     JsMap.has userId (queue (cleanup now w)) = false) /\
  (forall userId data,
     In (userId, data) (queue w) -> age now data <= 5 * 60 * 1000 ->
     JsMap.get userId (queue (cleanup now w)) = Some data) /\
  queue (cleanup now w)
  = filter (fun kv => age now (snd kv) <=? 5 * 60 * 1000) (queue w) /\
  games (cleanup now w) = games w /\
  (forall t0 k, cleanup_time t0 (S k) - cleanup_time t0 k = 60 * 1000).
Proof.
  intros Hwf.
  assert (Hq : queue (cleanup now w)
               = filter (fun kv => age now (snd kv) <=? 5 * 60 * 1000) (queue w)).
  { unfold cleanup. cbn [queue]. rewrite (cleanup_loop_filter now _ Hwf).
    apply filter_ext. intros kv. unfold age, TIMEOUT.
    rewrite Z.gtb_ltb, Z.leb_antisym. reflexivity. }
  repeat split.
  - intros u d Hin Hold. apply has_false_iff. rewrite Hq.
    intros Hk. unfold JsMap.keys in Hk.
    apply in_map_iff in Hk as [[u' d'] [E Hin']]. cbn [fst] in E. subst u'.
    apply filter_In in Hin' as [Hin' Hyoung]. cbn [snd] in Hyoung.
    assert (d' = d).
    { pose proof (in_get _ _ _ Hwf Hin) as G1.
      pose proof (in_get _ _ _ Hwf Hin') as G2. congruence. }
    subst d'. apply Z.leb_le in Hyoung. lia.
  - intros u d Hin Hyoung. rewrite Hq.
    apply in_get; [now apply filter_wf |].
    apply filter_In. split; [exact Hin |]. cbn [snd]. now apply Z.leb_le.
  - exact Hq.
  - intros t0 k. unfold cleanup_time, CLEANUP_INTERVAL. lia.
Qed.

(** The theorem at a queue with an entry of 10 minutes and one of 1 minute. *)
Lemma cleanup_removes_entries_older_than_5_minutes_witness :
  let w := mkWorld [("alice", mkEntry 1000 0 "ayo");
                    ("bob", mkEntry 1050 540000 "ayo")] [] in
  JsMap.wf (queue w) /\
  JsMap.has "alice" (queue (cleanup 600000 w)) = false /\
  JsMap.get "bob" (queue (cleanup 600000 w)) = Some (mkEntry 1050 540000 "ayo").
Proof.
  assert (Hwf : JsMap.wf [("alice", mkEntry 1000 0 "ayo");
                          ("bob", mkEntry 1050 540000 "ayo")]).
  { repeat constructor; cbn; intuition discriminate. }
  pose proof (cleanup_removes_entries_older_than_5_minutes 600000
                (mkWorld [("alice", mkEntry 1000 0 "ayo");
                          ("bob", mkEntry 1050 540000 "ayo")] []) Hwf)
    as (Hold & Hyoung & _).
  split; [exact Hwf |]. split.
  - apply (Hold "alice" (mkEntry 1000 0 "ayo")); [left; reflexivity |].
    unfold age. cbn. lia.
  - apply (Hyoung "bob" (mkEntry 1050 540000 "ayo")); [right; left; reflexivity |].
    unfold age. cbn. lia.
Defined.

(** C6, as stated, fails at the boundary: alice's entry is exactly
    5 minutes old when the pass runs, and it stays in the queue. *)
Lemma entry_of_exactly_5_minutes_survives_counterexample :
  let w := run [OpStart (healthy 0) "alice" "ayo"] (initial []) in
  JsMap.get "alice" (queue w) = Some (mkEntry 1000 0 "ayo") /\
  age 300000 (mkEntry 1000 0 "ayo") >= 5 * 60 * 1000 /\
  JsMap.get "alice" (queue (cleanup 300000 w)) = Some (mkEntry 1000 0 "ayo").
Proof. vm_compute. repeat split; discriminate. Qed.

(** ** The answer "searching" *)

Lemma partition_of_no_candidate g x (q : Queue) :
  (forall kv, In kv q -> is_candidate g x kv = false) ->
  JsMap.has x q = false ->
  partition_of g q = [].
Proof.
  rewrite has_false_iff. unfold partition_of, JsMap.keys.
  induction q as [| [k d] q IH]; cbn [filter map fst snd]; intros Hc Hx;
    [reflexivity |].
  assert (Hk : String.eqb k x = false).
  { apply String.eqb_neq. intros ->. apply Hx. now left. }
  pose proof (Hc (k, d) (or_introl eq_refl)) as Hkd.
  unfold is_candidate in Hkd. cbn [fst snd] in Hkd. rewrite Hk in Hkd.
  cbn [negb andb] in Hkd. rewrite Hkd.
  apply IH.
  - intros kv Hin. apply Hc. now right.
  - intros Hin. apply Hx. now right.
Qed.

(** C7, as the code has it. When the requester is known and the search
    finds no candidate, the start request inserts one entry for the
    requester, at the end of the queue, carrying the current time, and
    answers "searching" with [queuePosition] equal to the size of the whole
    queue, all game types together: one more than the number of entries of
    the other players.  The requester's entry is then the only entry of
    the requested game type. *)
Theorem searching_answer_carries_queue_size (env : Env) (userId : UserId)
    (gameType0 : string) (w : World) (row : UserRow) :
  env_fails env UserLookup = false ->
  env_users env userId = Some row ->
  findBestMatch (row_rating row) gameType0 userId
    (JsMap.delete userId (queue w)) = None ->
  let data := mkEntry (row_rating row) (env_now env) gameType0 in
  let r := fst (startMatchmaking env userId gameType0 w) in
  let w' := snd (startMatchmaking env userId gameType0 w) in
  queue w' = JsMap.delete userId (queue w) ++ [(userId, data)] /\
  JsMap.get userId (queue w') = Some data /\
  r = Searching (JsMap.size (queue w')) /\
  JsMap.size (queue w') = S (JsMap.size (JsMap.delete userId (queue w))) /\
  partition_of gameType0 (queue w') = [(userId, data)] /\
  games w' = games w.
Proof.
  intros Hup Hrow Hnone data r w'. subst r w'.
  rewrite startMatchmaking_eq, Hup, Hrow. cbv zeta. rewrite Hnone.
  cbn [fst snd queue games]. fold data.
  assert (Hset : JsMap.set userId data (JsMap.delete userId (queue w))
                 = JsMap.delete userId (queue w) ++ [(userId, data)])
    by apply set_absent, has_delete_same.
  rewrite Hset. repeat split.
  - rewrite <- Hset. apply get_set_same.
  - unfold JsMap.size. rewrite length_app. cbn. lia.
  - unfold partition_of. rewrite filter_app.
    fold (partition_of gameType0 (JsMap.delete userId (queue w))).
    rewrite (partition_of_no_candidate gameType0 userId).
    + cbn. now rewrite String.eqb_refl.
    + now apply findBestMatch_none with (r := row_rating row).
    + apply has_delete_same.
Qed.

(** The theorem for alice's start request while dave waits for "ludo". *)
Lemma searching_answer_carries_queue_size_witness :
  fst (startMatchmaking (healthy 1) "alice" "ayo"
         (mkWorld [("dave", mkEntry 900 0 "ludo")] []))
  = Searching (JsMap.size
      (queue (snd (startMatchmaking (healthy 1) "alice" "ayo"
                     (mkWorld [("dave", mkEntry 900 0 "ludo")] []))))).
Proof.
  pose proof (searching_answer_carries_queue_size (healthy 1) "alice" "ayo"
                (mkWorld [("dave", mkEntry 900 0 "ludo")] [])
                (mkUserRow (Some "Alice") 1000) eq_refl eq_refl eq_refl)
    as (_ & _ & Hr & _).
  exact Hr.
Defined.

(** C7, as stated, fails: dave waits for "ludo" when alice sends a start
    request for "ayo"; she is answered [queuePosition] 2, and the queue
    holds one entry of game type "ayo", hers. *)
Lemma queue_position_counts_other_game_types_counterexample :
  let w := run [OpStart (healthy 0) "dave" "ludo"] (initial []) in
  let r := fst (startMatchmaking (healthy 1) "alice" "ayo" w) in
  let w' := snd (startMatchmaking (healthy 1) "alice" "ayo" w) in
  r = Searching 2 /\
  partition_of "ayo" (queue w') = [("alice", mkEntry 1000 1 "ayo")] /\
  JsMap.size (partition_of "ayo" (queue w')) = 1%nat.
Proof. vm_compute. repeat split. Qed.

(** ** Who moves first *)

(** C8. Whenever a match is made, who gets the first slot and the first
    turn depends on the operation.  When the requester is resolved, the
    search selects a waiting player and the store answers, a start request
    answers "matched" with a game whose [player1] and [currentTurn] are the
    waiting player and whose [player2] is the requester; under the same
    conditions a status request of a queued player answers "matched" with
    a game whose [player1] and [currentTurn] are the polling requester and
    whose [player2] is the waiting player.  Conversely every "matched"
    answer of a start request, and of a status request of a queued player,
    carries a game of that shape. *)
Theorem first_player_depends_on_operation (env : Env) (userId : UserId)
    (gameType0 : string) (w : World) :
  (forall row m,
     env_fails env UserLookup = false ->
     env_users env userId = Some row ->
     findBestMatch (row_rating row) gameType0 userId
       (JsMap.delete userId (queue w)) = Some m ->
     env_fails env OpponentLookup = false ->
     env_fails env GameCreate = false ->
     exists game,
       fst (startMatchmaking env userId gameType0 w) = MatchFound game /\
       In (entry_of m) (queue w) /\ bm_userId m <> userId /\
       player1Id (game_data game) = bm_userId m /\
       currentTurn (game_data game) = Some (bm_userId m) /\
       player2Id (game_data game) = Some userId)
  /\
  (forall row m,
     JsMap.has userId (queue w) = true ->
     env_fails env UserLookup = false ->
     env_users env userId = Some row ->
     findBestMatch (row_rating row) gameType0 userId (queue w) = Some m ->
     env_fails env GameCreate = false ->
     exists game,
       fst (checkMatchmakingStatus env userId gameType0 w) = MatchFound game /\
       In (entry_of m) (queue w) /\ bm_userId m <> userId /\
       player1Id (game_data game) = userId /\
       currentTurn (game_data game) = Some userId /\
       player2Id (game_data game) = Some (bm_userId m))
  /\
  (forall game,
     fst (startMatchmaking env userId gameType0 w) = MatchFound game ->
     exists waiting data,
       In (waiting, data) (queue w) /\ waiting <> userId /\
       player1Id (game_data game) = waiting /\
       currentTurn (game_data game) = Some waiting /\
       player2Id (game_data game) = Some userId)
  /\
  (forall game,
     JsMap.has userId (queue w) = true ->
     fst (checkMatchmakingStatus env userId gameType0 w) = MatchFound game ->
     exists waiting data,
       In (waiting, data) (queue w) /\ waiting <> userId /\
       player1Id (game_data game) = userId /\
       currentTurn (game_data game) = Some userId /\
       player2Id (game_data game) = Some waiting).
Proof.
  split; [| split; [| split]].
  - intros row m Hup Hrow Hm Hopp Hcreate.
    rewrite startMatchmaking_eq, Hup, Hrow. cbv zeta.
    rewrite Hm, Hopp, Hcreate. cbn [orb fst].
    apply findBestMatch_some in Hm as (Hin & Hne & _).
    apply in_delete in Hin as [Hin _].
    eexists. split; [reflexivity |]. cbn. auto.
  - intros row m Hhas Hup Hrow Hm Hcreate.
    rewrite checkMatchmakingStatus_eq, Hhas, Hup, Hrow, Hm. cbv zeta.
    rewrite Hcreate. cbn [fst].
    apply findBestMatch_some in Hm as (Hin & Hne & _).
    eexists. split; [reflexivity |]. cbn. auto.
  - intros game. rewrite startMatchmaking_eq.
    destruct (env_fails env UserLookup); [discriminate |].
    destruct (env_users env userId) as [row |]; [| discriminate].
    cbv zeta. destruct (findBestMatch _ _ _ _) as [m |] eqn:Hm; [| discriminate].
    destruct (_ || _); cbn [fst]; [discriminate |].
    intros [= <-]. apply findBestMatch_some in Hm as (Hin & Hne & _).
    apply in_delete in Hin as [Hin _].
    exists (bm_userId m), (mkEntry (bm_rating m) (bm_timestamp m) (bm_gameType m)).
    cbn. auto.
  - intros game Hhas. rewrite checkMatchmakingStatus_eq, Hhas.
    destruct (env_fails env UserLookup); [discriminate |].
    destruct (env_users env userId) as [row |]; [| discriminate].
    destruct (findBestMatch _ _ _ _) as [m |] eqn:Hm; [| discriminate].
    cbv zeta. destruct (env_fails env GameCreate); cbn [fst]; [discriminate |].
    intros [= <-]. apply findBestMatch_some in Hm as (Hin & Hne & _).
    exists (bm_userId m), (mkEntry (bm_rating m) (bm_timestamp m) (bm_gameType m)).
    cbn. auto.
Qed.

(** The theorem at a queue where alice waits for "ayo" and bob for "ludo":
    bob's start request for "ayo" makes alice the first player, bob's
    status request for "ayo" makes bob the first player. *)
Lemma first_player_depends_on_operation_witness :
  let w := mkWorld [("alice", mkEntry 1000 0 "ayo");
                    ("bob", mkEntry 1050 1 "ludo")] [] in
  (exists game,
     fst (startMatchmaking (healthy 2) "bob" "ayo" w) = MatchFound game /\
     player1Id (game_data game) = "alice" /\
     currentTurn (game_data game) = Some "alice" /\
     player2Id (game_data game) = Some "bob")
  /\
  (exists game,
     fst (checkMatchmakingStatus (healthy 2) "bob" "ayo" w) = MatchFound game /\
     player1Id (game_data game) = "bob" /\
     currentTurn (game_data game) = Some "bob" /\
     player2Id (game_data game) = Some "alice").
Proof.
  destruct (first_player_depends_on_operation (healthy 2) "bob" "ayo"
              (mkWorld [("alice", mkEntry 1000 0 "ayo");
                        ("bob", mkEntry 1050 1 "ludo")] []))
    as (Hstart & Hstatus & _).
  split.
  - destruct (Hstart (mkUserRow (Some "Bob") 1050)
                (mkBestMatch "alice" 1000 0 "ayo")
                eq_refl eq_refl eq_refl eq_refl eq_refl)
      as (game & Hr & _ & _ & H1 & H2 & H3).
    exists game. repeat split; assumption.
  - destruct (Hstatus (mkUserRow (Some "Bob") 1050)
                (mkBestMatch "alice" 1000 0 "ayo")
                eq_refl eq_refl eq_refl eq_refl eq_refl)
      as (game & Hr & _ & _ & H1 & H2 & H3).
    exists game. repeat split; assumption.
Defined.

(** ** A rejected game creation *)

(** C9. When the requester is known, the search selects a candidate and
    [prisma.game.create] rejects, the start request answers 500
    "Matchmaking failed" and the queue is left as it was when the call
    rejected: the candidate's entry and the requester's old entry have
    been removed, nobody has been inserted, so neither player is in the
    queue, the other entries are untouched, and no game has been stored. *)
Theorem rejected_game_creation_is_not_rolled_back (env : Env) (userId : UserId)
    (gameType0 : string) (w : World) (row : UserRow) (m : BestMatch) :
  env_fails env UserLookup = false ->
  env_users env userId = Some row ->
  findBestMatch (row_rating row) gameType0 userId
    (JsMap.delete userId (queue w)) = Some m ->
  env_fails env GameCreate = true ->
  let r := fst (startMatchmaking env userId gameType0 w) in
  let w' := snd (startMatchmaking env userId gameType0 w) in
  r = Failure "Matchmaking failed" /\
  In (entry_of m) (queue w) /\
  queue w' = JsMap.delete (bm_userId m) (JsMap.delete userId (queue w)) /\
  JsMap.has (bm_userId m) (queue w') = false /\
  JsMap.has userId (queue w') = false /\
  (forall k d, k <> userId -> k <> bm_userId m ->
     (In (k, d) (queue w') <-> In (k, d) (queue w))) /\
  games w' = games w.
Proof.
  intros Hup Hrow Hm Hcreate r w'. subst r w'.
  rewrite startMatchmaking_eq, Hup, Hrow. cbv zeta. rewrite Hm, Hcreate.
  rewrite orb_true_r. cbn [fst snd queue games].
  apply findBestMatch_some in Hm as (Hin & _ & _).
  apply in_delete in Hin as [Hin _].
  split; [reflexivity |]. split; [exact Hin |]. split; [reflexivity |].
  split; [apply has_delete_same |].
  split; [apply has_delete_other, has_delete_same |].
  split; [| reflexivity].
  intros k d Hk1 Hk2. rewrite !in_delete. tauto.
Qed.

(** The theorem for bob's start request while alice waits and the store
    rejects the creation. *)
Lemma rejected_game_creation_is_not_rolled_back_witness :
  let w := mkWorld [("alice", mkEntry 1000 0 "ayo")] [] in
  let r := fst (startMatchmaking (create_rejects 3) "bob" "ayo" w) in
  let w' := snd (startMatchmaking (create_rejects 3) "bob" "ayo" w) in
  r = Failure "Matchmaking failed" /\
  JsMap.has "alice" (queue w') = false /\
  JsMap.has "bob" (queue w') = false /\
  games w' = [].
Proof.
  pose proof (rejected_game_creation_is_not_rolled_back (create_rejects 3)
                "bob" "ayo" (mkWorld [("alice", mkEntry 1000 0 "ayo")] [])
                (mkUserRow (Some "Bob") 1050)
                (mkBestMatch "alice" 1000 0 "ayo")
                eq_refl eq_refl eq_refl eq_refl)
    as (Hr & _ & _ & Hcand & Hreq & _ & Hgames).
  repeat split; assumption.
Defined.

(** ** What sequential runs can reach

    A start request inserts the requester only when no other entry of the
    requested game type is waiting, and every other operation only removes
    entries.  So in the runs of this model, which start from the empty
    queue, take game types to be strings and run each handler as one step,
    a game type never has two entries: the search there has at most one
    candidate to choose from. *)

Lemma partition_of_filter_le g f (q : Queue) :
  (List.length (partition_of g (filter f q)) <= List.length (partition_of g q))%nat.
Proof.
  unfold partition_of. induction q as [| kv q IH]; cbn [filter]; [lia |].
  destruct (f kv); cbn [filter];
    destruct (String.eqb (gameType (snd kv)) g); cbn [List.length]; lia.
Qed.

Lemma step_partition op w :
  JsMap.wf (queue w) ->
  (forall g, (List.length (partition_of g (queue w)) <= 1)%nat) ->
  forall g, (List.length (partition_of g (queue (snd (step op w)))) <= 1)%nat.
Proof.
  intros Hwf Hone g.
  assert (Hdel : forall k (q : Queue),
            (List.length (partition_of g q) <= 1)%nat ->
            (List.length (partition_of g (JsMap.delete k q)) <= 1)%nat).
  { intros k q Hq. unfold JsMap.delete.
    pose proof (partition_of_filter_le g
                  (fun kv => negb (String.eqb (fst kv) k)) q). lia. }
  destruct op as [env u g0 | u | env u g0 | now]; cbn [step].
  - rewrite startMatchmaking_eq.
    destruct (env_fails env UserLookup); [apply Hone |].
    destruct (env_users env u) as [row |]; [| apply Hone].
    cbv zeta. destruct (findBestMatch _ _ _ _) as [m |] eqn:Hm.
    + destruct (_ || _); cbn [snd queue]; auto.
    + cbn [snd queue]. rewrite set_absent by apply has_delete_same.
      unfold partition_of. rewrite filter_app. cbn [filter snd gameType].
      fold (partition_of g (JsMap.delete u (queue w))).
      destruct (String.eqb_spec g0 g) as [E | E].
      * subst g0.
        rewrite (partition_of_no_candidate g u);
          [cbn; lia | | apply has_delete_same].
        now apply findBestMatch_none with (r := row_rating row).
      * rewrite app_nil_r. auto.
  - rewrite cancelMatchmaking_eq.
    destruct (JsMap.has u (queue w)); cbn [snd queue]; auto.
  - rewrite checkMatchmakingStatus_eq. destruct (JsMap.has u (queue w)).
    + destruct (env_fails env UserLookup); [apply Hone |].
      destruct (env_users env u) as [row |]; [| apply Hone].
      destruct (findBestMatch _ _ _ _) as [m |]; [| apply Hone].
      cbv zeta. destruct (env_fails env GameCreate); cbn [snd queue]; auto.
    + destruct (env_fails env GameFindFirst); [apply Hone |].
      destruct (latest _ _); apply Hone.
  - cbn [snd]. unfold cleanup. cbn [queue].
    rewrite (cleanup_loop_filter now _ Hwf).
    pose proof (partition_of_filter_le g
                  (fun kv => negb (now - timestamp (snd kv) >? TIMEOUT))
                  (queue w)).
    specialize (Hone g). lia.
Qed.

Lemma reachable_partition_at_most_one ops stored g :
  (List.length (partition_of g (queue (run ops (initial stored)))) <= 1)%nat.
Proof.
  enough (G : forall w,
             JsMap.wf (queue w) ->
             (forall g, (List.length (partition_of g (queue w)) <= 1)%nat) ->
             forall g, (List.length (partition_of g (queue (run ops w))) <= 1)%nat).
  { apply G; [apply initial_wf | intros g'; cbn; lia]. }
  induction ops as [| op ops IH]; intros w Hwf Hone g'; cbn [run]; [apply Hone |].
  apply IH; [now apply step_wf | now apply step_partition].
Qed.

(** ** The rating of a polling player *)

(** On a queue that a run reaches, the search has at most one candidate,
    so its result is the same for every rating. *)
Lemma reachable_search_rating_free ops stored r1 r2 g x :
  findBestMatch r1 g x (queue (run ops (initial stored)))
  = findBestMatch r2 g x (queue (run ops (initial stored))).
Proof.
  set (q := queue (run ops (initial stored))).
  assert (Hlen : (List.length (filter (is_candidate g x) q) <= 1)%nat).
  { pose proof (reachable_partition_at_most_one ops stored g) as Hone.
    fold q in Hone.
    enough (Hle : (List.length (filter (is_candidate g x) q)
                   <= List.length (partition_of g q))%nat) by lia.
    unfold partition_of, is_candidate. clear.
    induction q as [| [k d] q IH]; [cbn; lia |]. cbn [filter fst snd].
    destruct (String.eqb (gameType d) g);
      destruct (negb (String.eqb k x)); cbn [andb List.length]; lia. }
  unfold findBestMatch, JsMap.entries.
  rewrite (findBestMatch_loop_filter r1), (findBestMatch_loop_filter r2).
  pose proof (fun kv => proj1 (filter_In (is_candidate g x) kv q)) as Hcand.
  destruct (filter (is_candidate g x) q) as [| [k d] [| kv2 rest]];
    [reflexivity | | cbn in Hlen; lia].
  destruct (Hcand (k, d) (or_introl eq_refl)) as [_ Hc].
  cbn [findBestMatch_loop]. cbv zeta.
  rewrite !skip_iff_not_candidate, Hc. reflexivity.
Qed.

(** C10, as the code has it. A status request of a player who is in the
    queue searches with the rating that [prisma.user.findUnique] returns
    at the time of the poll, not with the rating stored in the player's
    own entry: for every queue, the answer is the one the search gives
    for the looked-up rating.  In every state that a sequence of
    operations reaches from the empty queue the opponent selected is
    nevertheless the one the stored rating would select, because at most
    one entry of a game type waits. *)
Theorem status_search_uses_looked_up_rating :
  (forall env userId gameType0 w data row,
     JsMap.get userId (queue w) = Some data ->
     env_fails env UserLookup = false ->
     env_fails env GameCreate = false ->
     env_users env userId = Some row ->
     fst (checkMatchmakingStatus env userId gameType0 w)
     = match findBestMatch (row_rating row) gameType0 userId (queue w) with
       | Some m => MatchFound (polled_game env gameType0 userId (bm_userId m))
       | None => StillSearching (JsMap.size (queue w))
       end)
  /\
  (forall ops stored env userId gameType0 data row,
     let w := run ops (initial stored) in
     JsMap.get userId (queue w) = Some data ->
     env_fails env UserLookup = false ->
     env_fails env GameCreate = false ->
     env_users env userId = Some row ->
     findBestMatch (row_rating row) gameType0 userId (queue w)
     = findBestMatch (rating data) gameType0 userId (queue w) /\
     fst (checkMatchmakingStatus env userId gameType0 w)
     = match findBestMatch (rating data) gameType0 userId (queue w) with
       | Some m => MatchFound (polled_game env gameType0 userId (bm_userId m))
       | None => StillSearching (JsMap.size (queue w))
       end).
Proof.
  assert (H1 : forall env userId gameType0 w data row,
            JsMap.get userId (queue w) = Some data ->
            env_fails env UserLookup = false ->
            env_fails env GameCreate = false ->
            env_users env userId = Some row ->
            fst (checkMatchmakingStatus env userId gameType0 w)
            = match findBestMatch (row_rating row) gameType0 userId (queue w) with
              | Some m => MatchFound (polled_game env gameType0 userId (bm_userId m))
              | None => StillSearching (JsMap.size (queue w))
              end).
  { intros env u g w data row Hget Hup Hcreate Hrow.
    rewrite checkMatchmakingStatus_eq. unfold JsMap.has. rewrite Hget, Hup, Hrow.
    destruct (findBestMatch _ _ _ _) as [m |]; [| reflexivity].
    cbv zeta. rewrite Hcreate. reflexivity. }
  split; [exact H1 |].
  intros ops stored env u g data row w Hget Hup Hcreate Hrow.
  assert (Hsame : findBestMatch (row_rating row) g u (queue w)
                  = findBestMatch (rating data) g u (queue w))
    by apply reachable_search_rating_free.
  split; [exact Hsame |].
  rewrite <- Hsame. exact (H1 env u g w data row Hget Hup Hcreate Hrow).
Qed.

(** The theorem after alice (stored rating 1000) has queued for "ayo" and
    bob for "ludo": alice's poll for "ludo", made when her rating in the
    store is 1150, selects bob, as her stored rating would. *)
Lemma status_search_uses_looked_up_rating_witness :
  let w := run [OpStart (healthy 0) "alice" "ayo";
                OpStart (healthy 1) "bob" "ludo"] (initial []) in
  JsMap.get "alice" (queue w) = Some (mkEntry 1000 0 "ayo") /\
  fst (checkMatchmakingStatus (after_rating_change 9) "alice" "ludo" w)
  = MatchFound (polled_game (after_rating_change 9) "ludo" "alice" "bob") /\
  findBestMatch 1150 "ludo" "alice" (queue w)
  = findBestMatch 1000 "ludo" "alice" (queue w).
Proof.
  destruct status_search_uses_looked_up_rating as [Hany Hrun].
  split; [reflexivity |]. split.
  - exact (Hany (after_rating_change 9) "alice" "ludo"
             (run [OpStart (healthy 0) "alice" "ayo";
                   OpStart (healthy 1) "bob" "ludo"] (initial []))
             (mkEntry 1000 0 "ayo") (mkUserRow (Some "Alice") 1150)
             eq_refl eq_refl eq_refl eq_refl).
  - exact (proj1 (Hrun [OpStart (healthy 0) "alice" "ayo";
                        OpStart (healthy 1) "bob" "ludo"] []
                    (after_rating_change 9) "alice" "ludo"
                    (mkEntry 1000 0 "ayo") (mkUserRow (Some "Alice") 1150)
                    eq_refl eq_refl eq_refl eq_refl)).
Defined.

(** C10, as stated, fails: no sequence of operations from the empty queue
    reaches a state in which a queued player's stored rating and another
    rating select different opponents. *)
Lemma stored_rating_never_selects_another_opponent_counterexample :
  ~ (exists ops stored userId gameType0 data lookedUp,
       JsMap.get userId (queue (run ops (initial stored))) = Some data /\
       rating data <> lookedUp /\
       findBestMatch lookedUp gameType0 userId (queue (run ops (initial stored)))
       <> findBestMatch (rating data) gameType0 userId
            (queue (run ops (initial stored)))).
Proof.
  intros (ops & stored & u & g & data & r & _ & _ & Hdiff).
  apply Hdiff. apply reachable_search_rating_free.
Qed.

(** * Further properties of the matchmaking controller *)

(** ** Cancelling *)

Lemma world_eta w : mkWorld (queue w) (games w) = w.
Proof. destruct w. reflexivity. Qed.

(** X1. A cancel request never fails and touches nothing but the
    requester's entry: it answers "cancelled" exactly when the requester
    was in the queue and 400 exactly when not, afterwards the requester is
    not in the queue, the entries of the other players are kept as they
    were and in their order, and the stored games are untouched; the 400
    answer leaves the whole state as it was. *)
Theorem cancel_removes_only_the_requester (userId : UserId) (w : World) :
  let r := fst (cancelMatchmaking userId w) in
  let w' := snd (cancelMatchmaking userId w) in
  (r = Cancelled <-> JsMap.has userId (queue w) = true) /\
  (r = NotInMatchmakingQueue <-> JsMap.has userId (queue w) = false) /\
  (r = NotInMatchmakingQueue -> w' = w) /\
  JsMap.has userId (queue w') = false /\
  (forall k d, k <> userId -> (In (k, d) (queue w') <-> In (k, d) (queue w))) /\
  queue w' = filter (fun kv => negb (String.eqb (fst kv) userId)) (queue w) /\
  games w' = games w.
Proof.
  intros r w'. subst r w'. rewrite cancelMatchmaking_eq.
  destruct (JsMap.has userId (queue w)) eqn:Hhas; cbn [fst snd queue games].
  - split; [intuition discriminate |]. split; [intuition discriminate |].
    split; [discriminate |]. split; [apply has_delete_same |].
    split; [intros k d Hk; rewrite in_delete; tauto |].
    split; reflexivity.
  - split; [intuition discriminate |]. split; [intuition |].
    split; [reflexivity |]. split; [exact Hhas |].
    split; [tauto |]. split; [| reflexivity].
    symmetry. now apply (delete_absent userId (queue w)).
Qed.

Lemma delete_idempotent {V} k (m : JsMap.t V) :
  JsMap.delete k (JsMap.delete k m) = JsMap.delete k m.
Proof. apply delete_absent, has_delete_same. Qed.

Lemma delete_app {V} k (m1 m2 : JsMap.t V) :
  JsMap.delete k (m1 ++ m2) = JsMap.delete k m1 ++ JsMap.delete k m2.
Proof. unfold JsMap.delete. apply filter_app. Qed.

Lemma delete_singleton_same {V} k (v : V) : JsMap.delete k [(k, v)] = [].
Proof. unfold JsMap.delete. cbn. now rewrite String.eqb_refl. Qed.

(** X2. Cancelling undoes a start request that was told to wait: the
    cancel answers "cancelled", and the queue is the one from before the
    start request without the requester's older entry, if there was one;
    when the requester was not queued before, the whole state is exactly
    as before the start request. *)
Theorem cancel_undoes_a_waiting_start (env : Env) (userId : UserId)
    (gameType0 : string) (w : World) (n : nat) :
  fst (startMatchmaking env userId gameType0 w) = Searching n ->
  let w1 := snd (startMatchmaking env userId gameType0 w) in
  let w2 := snd (cancelMatchmaking userId w1) in
  fst (cancelMatchmaking userId w1) = Cancelled /\
  queue w2 = JsMap.delete userId (queue w) /\
  games w2 = games w /\
  (JsMap.has userId (queue w) = false -> w2 = w).
Proof.
  intros Hr w1 w2. subst w1 w2. revert Hr. rewrite startMatchmaking_eq.
  destruct (env_fails env UserLookup); [discriminate |].
  destruct (env_users env userId) as [row |]; [| discriminate].
  cbv zeta. destruct (findBestMatch _ _ _ _) as [m |].
  - destruct (_ || _); discriminate.
  - cbn [fst snd]. intros _. rewrite cancelMatchmaking_eq. cbn [queue games].
    rewrite has_set_same. cbn [fst snd queue games].
    rewrite set_absent by apply has_delete_same.
    rewrite delete_app, delete_idempotent, delete_singleton_same, app_nil_r.
    repeat split.
    intros Hhas. rewrite (delete_absent _ _ Hhas). apply world_eta.
Qed.

(** The theorem for alice, who starts while dave waits for another game,
    and cancels. *)
Lemma cancel_undoes_a_waiting_start_witness :
  let w := mkWorld [("dave", mkEntry 900 0 "ludo")] [] in
  snd (cancelMatchmaking "alice"
         (snd (startMatchmaking (healthy 4) "alice" "ayo" w))) = w.
Proof.
  pose proof (cancel_undoes_a_waiting_start (healthy 4) "alice" "ayo"
                (mkWorld [("dave", mkEntry 900 0 "ludo")] []) 2 eq_refl)
    as (_ & _ & _ & H).
  exact (H eq_refl).
Defined.

(** X3. A start request whose requester cannot be looked up changes
    nothing: when the lookup rejects it answers 500, when the lookup finds
    no user it answers 404 (and only then), and in both cases the queue,
    an older entry of the requester included, and the games are exactly as
    before. *)
Theorem start_without_requester_changes_nothing (env : Env) (userId : UserId)
    (gameType0 : string) (w : World) :
  (env_fails env UserLookup = true ->
   startMatchmaking env userId gameType0 w = (Failure "Matchmaking failed", w)) /\
  (fst (startMatchmaking env userId gameType0 w) = UserNotFound <->
   env_fails env UserLookup = false /\ env_users env userId = None) /\
  (fst (startMatchmaking env userId gameType0 w) = UserNotFound ->
   snd (startMatchmaking env userId gameType0 w) = w).
Proof.
  rewrite startMatchmaking_eq.
  destruct (env_fails env UserLookup).
  - split; [reflexivity |]. split; [| discriminate].
    split; [discriminate | intros [? _]; discriminate].
  - split; [discriminate |].
    destruct (env_users env userId) as [row |].
    + cbv zeta. destruct (findBestMatch _ _ _ _); [destruct (_ || _) |];
        cbn [fst]; (split; [split; [discriminate | intros [_ ?]; discriminate]
                           | discriminate]).
    + cbn [fst snd]. split; [tauto | reflexivity].
Qed.

(** The theorem for a requester the store does not know, while alice
    waits. *)
Lemma start_without_requester_changes_nothing_witness :
  let w := mkWorld [("alice", mkEntry 1000 0 "ayo")] [] in
  startMatchmaking (healthy 3) "mallory" "ayo" w = (UserNotFound, w).
Proof.
  pose proof (start_without_requester_changes_nothing (healthy 3) "mallory"
                "ayo" (mkWorld [("alice", mkEntry 1000 0 "ayo")] []))
    as (_ & Hiff & Hsame).
  assert (Hr : fst (startMatchmaking (healthy 3) "mallory" "ayo"
                      (mkWorld [("alice", mkEntry 1000 0 "ayo")] []))
               = UserNotFound)
    by (apply Hiff; split; reflexivity).
  specialize (Hsame Hr).
  destruct (startMatchmaking (healthy 3) "mallory" "ayo"
              (mkWorld [("alice", mkEntry 1000 0 "ayo")] [])) as [r w'].
  cbn [fst snd] in *. now subst.
Defined.

(** X4. A start request never leaves two compatible players waiting: it
    is told to wait only when no other player waits for the requested
    game type; when another player does wait for it and the requester is
    resolved, the answer is "matched", or 500 when a later store call
    rejects, and never "searching". *)
Theorem start_waits_only_without_compatible_waiter (env : Env)
    (userId : UserId) (gameType0 : string) (w : World) :
  (forall n, fst (startMatchmaking env userId gameType0 w) = Searching n ->
     forall k d, In (k, d) (queue w) -> k <> userId -> gameType d <> gameType0) /\
  (forall k d row,
     In (k, d) (queue w) -> k <> userId -> gameType d = gameType0 ->
     env_fails env UserLookup = false -> env_users env userId = Some row ->
     (exists game, fst (startMatchmaking env userId gameType0 w) = MatchFound game)
     \/ fst (startMatchmaking env userId gameType0 w) = Failure "Matchmaking failed").
Proof.
  assert (Hcand : forall r k d, In (k, d) (queue w) -> k <> userId ->
            gameType d = gameType0 ->
            findBestMatch r gameType0 userId (JsMap.delete userId (queue w)) <> None).
  { intros r k d Hin Hk Hg Hnone.
    assert (Hin' : In (k, d) (JsMap.delete userId (queue w)))
      by (apply in_delete; split; assumption).
    pose proof (findBestMatch_none _ _ _ _ Hnone (k, d) Hin') as H.
    unfold is_candidate in H. cbn [fst snd] in H.
    apply String.eqb_neq in Hk. rewrite Hg, String.eqb_refl, Hk in H.
    discriminate. }
  rewrite startMatchmaking_eq. split.
  - intros n. destruct (env_fails env UserLookup); [discriminate |].
    destruct (env_users env userId) as [row |]; [| discriminate].
    cbv zeta. destruct (findBestMatch _ _ _ _) as [m |] eqn:Hm.
    + destruct (_ || _); discriminate.
    + intros _ k d Hin Hk Hg. exact (Hcand _ k d Hin Hk Hg Hm).
  - intros k d row Hin Hk Hg Hup Hrow. rewrite Hup, Hrow. cbv zeta.
    destruct (findBestMatch _ _ _ _) as [m |] eqn:Hm.
    + destruct (_ || _); cbn [fst]; [now right | left; eauto].
    + exfalso. exact (Hcand _ k d Hin Hk Hg Hm).
Qed.

(** The theorem for bob's start request while alice waits for the same
    game. *)
Lemma start_waits_only_without_compatible_waiter_witness :
  (exists game,
     fst (startMatchmaking (healthy 3) "bob" "ayo"
            (mkWorld [("alice", mkEntry 1000 0 "ayo")] [])) = MatchFound game)
  \/ fst (startMatchmaking (healthy 3) "bob" "ayo"
            (mkWorld [("alice", mkEntry 1000 0 "ayo")] []))
     = Failure "Matchmaking failed".
Proof.
  assert (Hne : "alice" <> "bob") by discriminate.
  destruct (start_waits_only_without_compatible_waiter (healthy 3) "bob" "ayo"
              (mkWorld [("alice", mkEntry 1000 0 "ayo")] [])) as [_ H].
  exact (H "alice" (mkEntry 1000 0 "ayo") (mkUserRow (Some "Bob") 1050)
           (or_introl eq_refl) Hne eq_refl eq_refl eq_refl).
Defined.

(** ** What a match does to the queue and to the store *)

(** X5. Whenever a start request or a status request of a queued player
    answers "matched", both players of the game have left the queue, the
    entries of all other players are as before, and the game is the one
    game added to the store. *)
Theorem matched_players_leave_the_queue (env : Env) (userId : UserId)
    (gameType0 : string) (w : World) (game : Game) :
  (fst (startMatchmaking env userId gameType0 w) = MatchFound game ->
   let w' := snd (startMatchmaking env userId gameType0 w) in
   JsMap.has userId (queue w') = false /\
   JsMap.has (player1Id (game_data game)) (queue w') = false /\
   (forall k d, k <> userId -> k <> player1Id (game_data game) ->
      (In (k, d) (queue w') <-> In (k, d) (queue w))) /\
   games w' = games w ++ [game])
  /\
  (JsMap.has userId (queue w) = true ->
   fst (checkMatchmakingStatus env userId gameType0 w) = MatchFound game ->
   let w' := snd (checkMatchmakingStatus env userId gameType0 w) in
   exists opponent,
     player2Id (game_data game) = Some opponent /\
     JsMap.has userId (queue w') = false /\
     JsMap.has opponent (queue w') = false /\
     (forall k d, k <> userId -> k <> opponent ->
        (In (k, d) (queue w') <-> In (k, d) (queue w))) /\
     games w' = games w ++ [game]).
Proof.
  split.
  - rewrite startMatchmaking_eq.
    destruct (env_fails env UserLookup); [discriminate |].
    destruct (env_users env userId) as [row |]; [| discriminate].
    cbv zeta. destruct (findBestMatch _ _ _ _) as [m |]; [| discriminate].
    destruct (_ || _); cbn [fst snd]; [discriminate |].
    intros [= <-]. cbn [queue games started_game include_players game_data player1Id].
    split; [apply has_delete_other, has_delete_same |].
    split; [apply has_delete_same |]. split; [| reflexivity].
    intros k d Hk1 Hk2. rewrite !in_delete. tauto.
  - intros Hhas. rewrite checkMatchmakingStatus_eq, Hhas.
    destruct (env_fails env UserLookup); [discriminate |].
    destruct (env_users env userId) as [row |]; [| discriminate].
    destruct (findBestMatch _ _ _ _) as [m |]; [| discriminate].
    cbv zeta. destruct (env_fails env GameCreate); cbn [fst snd]; [discriminate |].
    intros [= <-]. exists (bm_userId m).
    cbn [queue games polled_game include_players game_data player2Id].
    split; [reflexivity |].
    split; [apply has_delete_other, has_delete_same |].
    split; [apply has_delete_same |]. split; [| reflexivity].
    intros k d Hk1 Hk2. rewrite !in_delete. tauto.
Qed.

(** The theorem for bob's start request while alice and dave wait. *)
Lemma matched_players_leave_the_queue_witness :
  let w := mkWorld [("alice", mkEntry 1000 0 "ayo");
                    ("dave", mkEntry 900 1 "ludo")] [] in
  let w' := snd (startMatchmaking (healthy 3) "bob" "ayo" w) in
  JsMap.has "bob" (queue w') = false /\
  JsMap.has "alice" (queue w') = false /\
  (In ("dave", mkEntry 900 1 "ludo") (queue w')
   <-> In ("dave", mkEntry 900 1 "ludo") (queue w)).
Proof.
  destruct (matched_players_leave_the_queue (healthy 3) "bob" "ayo"
              (mkWorld [("alice", mkEntry 1000 0 "ayo");
                        ("dave", mkEntry 900 1 "ludo")] [])
              (started_game (healthy 3) "ayo" "alice" "bob")) as [H _].
  destruct (H eq_refl) as (H1 & H2 & H3 & _).
  split; [exact H1 |]. split; [exact H2 |].
  apply H3; discriminate.
Defined.

Lemma cleanup_loop_incl now entries : forall (q : Queue) kv,
  In kv (cleanup_loop now entries q) -> In kv q.
Proof.
  induction entries as [| [userId data] rest IH]; intros q kv H; [exact H |].
  cbn [cleanup_loop] in H. destruct (now - timestamp data >? TIMEOUT).
  - apply IH in H. destruct kv as [k d]. now apply in_delete in H.
  - now apply IH.
Qed.

Lemma cleanup_loop_length now entries : forall (q : Queue),
  (List.length (cleanup_loop now entries q) <= List.length q)%nat.
Proof.
  induction entries as [| [userId data] rest IH]; intros q; [cbn; lia |].
  cbn [cleanup_loop]. destruct (now - timestamp data >? TIMEOUT).
  - specialize (IH (JsMap.delete userId q)).
    pose proof (filter_length_le
                  (fun kv : string * QueueEntry => negb (String.eqb (fst kv) userId)) q).
    unfold JsMap.delete in *. lia.
  - apply IH.
Qed.

(** X6. Only a start request that is told to wait adds an entry to the
    queue, and the entry it adds is the requester's own, with the rating
    just looked up, the time of the request and the requested game type:
    every other entry found in the queue after an operation was there
    before it, unchanged.  So no operation makes the queue grow by more
    than one entry, and cancel, status and clean-up never make it grow. *)
Theorem only_a_waiting_start_adds_an_entry (op : Op) (w : World) :
  (forall k d,
     In (k, d) (queue (snd (step op w))) ->
     In (k, d) (queue w) \/
     exists env gameType0 n row,
       op = OpStart env k gameType0 /\
       fst (step op w) = Some (Searching n) /\
       env_users env k = Some row /\
       d = mkEntry (row_rating row) (env_now env) gameType0) /\
  (JsMap.size (queue (snd (step op w))) <= S (JsMap.size (queue w)))%nat /\
  ((forall n, fst (step op w) <> Some (Searching n)) ->
   (JsMap.size (queue (snd (step op w))) <= JsMap.size (queue w))%nat).
Proof.
  assert (Hdel : forall k (q : Queue),
            (JsMap.size (JsMap.delete k q) <= JsMap.size q)%nat).
  { intros k q. unfold JsMap.size, JsMap.delete. apply filter_length_le. }
  destruct op as [env u g | u | env u g | now]; cbn [step].
  - rewrite startMatchmaking_eq.
    destruct (env_fails env UserLookup);
      [cbn [fst snd]; split; [auto | split; lia] |].
    destruct (env_users env u) as [row |] eqn:Hrow;
      [| cbn [fst snd]; split; [auto | split; lia]].
    cbv zeta. destruct (findBestMatch _ _ _ _) as [m |].
    + pose proof (Hdel u (queue w)).
      pose proof (Hdel (bm_userId m) (JsMap.delete u (queue w))).
      destruct (_ || _); cbn [fst snd queue];
        (split; [| split; lia]); intros k d Hin; left;
        apply in_delete in Hin as [Hin _]; now apply in_delete in Hin.
    + cbn [fst snd queue]. rewrite set_absent by apply has_delete_same.
      pose proof (Hdel u (queue w)). split; [| split].
      * intros k d Hin. apply in_app_or in Hin as [Hin | [Hin | []]].
        -- left. now apply in_delete in Hin.
        -- injection Hin as <- <-. right.
           eexists env, g, _, row. repeat split. exact Hrow.
      * unfold JsMap.size in *. rewrite length_app. cbn. lia.
      * intros Hno. exfalso. exact (Hno _ eq_refl).
  - rewrite cancelMatchmaking_eq. pose proof (Hdel u (queue w)).
    destruct (JsMap.has u (queue w)); cbn [fst snd queue];
      (split; [| split; lia]); [| auto].
    intros k d Hin. left. now apply in_delete in Hin.
  - rewrite checkMatchmakingStatus_eq. destruct (JsMap.has u (queue w)).
    + destruct (env_fails env UserLookup);
        [cbn [fst snd]; split; [auto | split; lia] |].
      destruct (env_users env u) as [row |];
        [| cbn [fst snd]; split; [auto | split; lia]].
      destruct (findBestMatch _ _ _ _) as [m |];
        [| cbn [fst snd]; split; [auto | split; lia]].
      pose proof (Hdel u (queue w)).
      pose proof (Hdel (bm_userId m) (JsMap.delete u (queue w))).
      cbv zeta. destruct (env_fails env GameCreate); cbn [fst snd queue];
        (split; [| split; lia]); intros k d Hin; left;
        apply in_delete in Hin as [Hin _]; now apply in_delete in Hin.
    + destruct (env_fails env GameFindFirst);
        [cbn [fst snd]; split; [auto | split; lia] |].
      destruct (latest _ _); cbn [fst snd]; (split; [auto | split; lia]).
  - cbn [fst snd cleanup queue].
    pose proof (cleanup_loop_length now (JsMap.entries (queue w)) (queue w)).
    unfold JsMap.size. split; [| split; lia].
    intros k d Hin. left. now apply cleanup_loop_incl in Hin.
Qed.

(** The theorem for a cancel request: the queue does not grow. *)
Lemma only_a_waiting_start_adds_an_entry_witness :
  (JsMap.size (queue (snd (step (OpCancel "bob")
                             (mkWorld [("alice", mkEntry 1000 0 "ayo")] []))))
   <= JsMap.size (queue (mkWorld [("alice", mkEntry 1000 0 "ayo")] [])))%nat.
Proof.
  destruct (only_a_waiting_start_adds_an_entry (OpCancel "bob")
              (mkWorld [("alice", mkEntry 1000 0 "ayo")] [])) as (_ & _ & H).
  apply H. intros n. discriminate.
Defined.

(** X7. The matchmaking operations only ever append to the stored games:
    an operation leaves the games as they are or adds exactly one game at
    the end, and the game added is the one carried by its "matched"
    answer, is "IN_PROGRESS", has two different players, and its first
    player is the one to move. *)
Theorem operations_append_at_most_one_game (op : Op) (w : World) :
  games (snd (step op w)) = games w \/
  exists game,
    games (snd (step op w)) = games w ++ [game] /\
    fst (step op w) = Some (MatchFound game) /\
    status (game_data game) = "IN_PROGRESS" /\
    two_players game /\
    currentTurn (game_data game) = Some (player1Id (game_data game)).
Proof.
  destruct op as [env u g | u | env u g | now]; cbn [step].
  - rewrite startMatchmaking_eq.
    destruct (env_fails env UserLookup); [now left |].
    destruct (env_users env u) as [row |]; [| now left].
    cbv zeta. destruct (findBestMatch _ _ _ _) as [m |] eqn:Hm; [| now left].
    apply findBestMatch_some in Hm as (_ & Hne & _).
    destruct (_ || _); cbn [fst snd games]; [now left |].
    right. eexists. split; [reflexivity |]. split; [reflexivity |].
    split; [reflexivity |].
    split; [now apply started_game_two_players | reflexivity].
  - rewrite cancelMatchmaking_eq.
    destruct (JsMap.has u (queue w)); now left.
  - rewrite checkMatchmakingStatus_eq. destruct (JsMap.has u (queue w)).
    + destruct (env_fails env UserLookup); [now left |].
      destruct (env_users env u) as [row |]; [| now left].
      destruct (findBestMatch _ _ _ _) as [m |] eqn:Hm; [| now left].
      apply findBestMatch_some in Hm as (_ & Hne & _).
      cbv zeta. destruct (env_fails env GameCreate); cbn [fst snd games];
        [now left |].
      right. eexists. split; [reflexivity |]. split; [reflexivity |].
      split; [reflexivity |].
      split; [now apply polled_game_two_players | reflexivity].
    + destruct (env_fails env GameFindFirst); [now left |].
      destruct (latest _ _); now left.
  - now left.
Qed.

(** ** Status requests *)

Lemma latest_max rows : forall best g,
  latest rows best = Some g ->
  (forall g', In g' rows -> started g' <= started g) /\
  (forall b, best = Some b -> started b <= started g).
Proof.
  induction rows as [| row rows IH]; intros best g H; cbn [latest] in H.
  - split; [intros g' [] | intros b Hb; rewrite Hb in H; injection H as <-; lia].
  - destruct best as [b |].
    + destruct (Z.ltb_spec (started b) (started row)) as [Hlt | Hge];
        apply IH in H as [Hrows Hbest].
      * specialize (Hbest row eq_refl). split.
        -- intros g' [<- | Hin]; [exact Hbest | auto].
        -- intros b' [= <-]. lia.
      * specialize (Hbest b eq_refl). split.
        -- intros g' [<- | Hin]; [lia | auto].
        -- intros b' [= <-]. exact Hbest.
    + apply IH in H as [Hrows Hbest]. specialize (Hbest row eq_refl). split.
      * intros g' [<- | Hin]; [exact Hbest | auto].
      * discriminate.
Qed.

Lemma latest_none rows : forall best,
  latest rows best = None -> rows = [] /\ best = None.
Proof.
  induction rows as [| row rows IH]; intros best H; cbn [latest] in H;
    [now split |].
  destruct best as [b |]; [destruct (started b <? started row) |];
    apply IH in H as [_ H]; discriminate.
Qed.

Lemma recent_game_of_true userId gameType0 since g :
  recent_game_of userId gameType0 since g = true <->
  (player1Id (game_data g) = userId \/ player2Id (game_data g) = Some userId) /\
  game_gameType (game_data g) = gameType0 /\
  status (game_data g) = "IN_PROGRESS" /\
  exists t, startedAt (game_data g) = Some t /\ since <= t.
Proof.
  unfold recent_game_of. cbv zeta. rewrite !andb_true_iff, orb_true_iff.
  rewrite !String.eqb_eq.
  assert (H2 : option_eqb (player2Id (game_data g)) userId = true
               <-> player2Id (game_data g) = Some userId).
  { unfold option_eqb. destruct (player2Id (game_data g)) as [p |].
    - rewrite String.eqb_eq. split; congruence.
    - split; discriminate. }
  rewrite H2.
  assert (Ht : match startedAt (game_data g) with
               | Some t => since <=? t | None => false end = true
               <-> exists t, startedAt (game_data g) = Some t /\ since <= t).
  { destruct (startedAt (game_data g)) as [t |].
    - rewrite Z.leb_le. split; [eauto | intros (t' & [= <-] & H); exact H].
    - split; [discriminate | intros (t' & H & _); discriminate]. }
  rewrite Ht. tauto.
Qed.

(** X8. A status request of a player who is not in the queue changes
    nothing and, when the store answers, reports a game only if the store
    holds one that involves the player as first or second player, has the
    polled game type, is "IN_PROGRESS" and started no earlier than 30
    seconds before the request; it then reports one that started latest
    among those, and it answers "not in queue" exactly when there is no
    such game. *)
Theorem status_of_unqueued_player_reads_recent_game (env : Env)
    (userId : UserId) (gameType0 : string) (w : World) :
  JsMap.has userId (queue w) = false ->
  env_fails env GameFindFirst = false ->
  let r := fst (checkMatchmakingStatus env userId gameType0 w) in
  snd (checkMatchmakingStatus env userId gameType0 w) = w /\
  (r = NotInQueue \/ exists game, r = MatchFound game) /\
  (r = NotInQueue <->
   forall g, In g (games w) ->
     recent_game_of userId gameType0 (env_now env - 30000) g = false) /\
  (forall game, r = MatchFound game ->
     exists g t,
       In g (games w) /\
       game = include_players env (game_id g) (game_data g) /\
       (player1Id (game_data g) = userId \/
        player2Id (game_data g) = Some userId) /\
       game_gameType (game_data g) = gameType0 /\
       status (game_data g) = "IN_PROGRESS" /\
       startedAt (game_data g) = Some t /\
       env_now env - 30000 <= t /\
       (forall g', In g' (games w) ->
          recent_game_of userId gameType0 (env_now env - 30000) g' = true ->
          started g' <= t)).
Proof.
  intros Hhas Hup r. subst r.
  rewrite checkMatchmakingStatus_eq, Hhas, Hup.
  destruct (latest _ _) as [found |] eqn:Hl; cbn [fst snd].
  - split; [reflexivity |]. split; [right; eauto |]. split.
    + split; [discriminate |]. intros Hnone. exfalso.
      apply latest_in in Hl as [Hl | Hl]; [| discriminate].
      apply filter_In in Hl as [Hin Hrec]. rewrite (Hnone _ Hin) in Hrec.
      discriminate.
    + intros game [= <-].
      pose proof (latest_max _ _ _ Hl) as [Hmax _].
      apply latest_in in Hl as [Hl | Hl]; [| discriminate].
      apply filter_In in Hl as [Hin Hrec].
      apply recent_game_of_true in Hrec as (Hp & Hg & Hs & t & Ht & Hsince).
      exists found, t. repeat split; try assumption.
      intros g' Hin' Hrec'.
      assert (Hst : started found = t) by (unfold started; now rewrite Ht).
      rewrite <- Hst. apply Hmax. apply filter_In. now split.
  - split; [reflexivity |]. split; [now left |]. split; [| discriminate].
    split; [| reflexivity]. intros _ g Hin.
    apply latest_none in Hl as [Hl _].
    destruct (recent_game_of userId gameType0 (env_now env - 30000) g) eqn:Hrec;
      [| reflexivity].
    assert (Hin' : In g (filter (recent_game_of userId gameType0
                                   (env_now env - 30000)) (games w)))
      by (apply filter_In; now split).
    rewrite Hl in Hin'. destruct Hin'.
Qed.

(** The theorem for alice's poll 10 seconds after a game with bob was
    stored. *)
Lemma status_of_unqueued_player_reads_recent_game_witness :
  let w := mkWorld [] [started_game (healthy 0) "ayo" "alice" "bob"] in
  snd (checkMatchmakingStatus (healthy 10000) "alice" "ayo" w) = w /\
  (fst (checkMatchmakingStatus (healthy 10000) "alice" "ayo" w) = NotInQueue \/
   exists game,
     fst (checkMatchmakingStatus (healthy 10000) "alice" "ayo" w) = MatchFound game).
Proof.
  destruct (status_of_unqueued_player_reads_recent_game (healthy 10000)
              "alice" "ayo"
              (mkWorld [] [started_game (healthy 0) "ayo" "alice" "bob"])
              eq_refl eq_refl) as (H1 & H2 & _).
  split; assumption.
Defined.

Lemma filter_all_false {A} (f : A -> bool) l :
  (forall x, In x l -> f x = false) -> filter f l = [].
Proof.
  induction l as [| x l IH]; intros H; [reflexivity |].
  cbn [filter]. rewrite (H x (or_introl eq_refl)).
  apply IH. intros y Hy. apply H. now right.
Qed.

(** X9. The player who was waiting learns of the match on the next poll:
    after a start request has matched a waiting player, and when the store
    holds no other recent game of that player, a status request of that
    player for the same game type made at most 30 seconds after the match
    answers "matched" with the game created, and one made more than 30
    seconds after it answers "not in queue"; neither changes the state. *)
Theorem waiting_player_learns_of_the_match (envB envA : Env) (B : UserId)
    (gameType0 : string) (w : World) (game : Game) :
  fst (startMatchmaking envB B gameType0 w) = MatchFound game ->
  env_fails envA GameFindFirst = false ->
  (forall g, In g (games w) ->
     recent_game_of (player1Id (game_data game)) gameType0
       (env_now envA - 30000) g = false) ->
  let A := player1Id (game_data game) in
  let w' := snd (startMatchmaking envB B gameType0 w) in
  (env_now envA - 30000 <= env_now envB ->
   checkMatchmakingStatus envA A gameType0 w'
   = (MatchFound (include_players envA (game_id game) (game_data game)), w')) /\
  (env_now envB < env_now envA - 30000 ->
   checkMatchmakingStatus envA A gameType0 w' = (NotInQueue, w')).
Proof.
  rewrite startMatchmaking_eq.
  destruct (env_fails envB UserLookup); [discriminate |].
  destruct (env_users envB B) as [row |]; [| discriminate].
  cbv zeta. destruct (findBestMatch _ _ _ _) as [m |]; [| discriminate].
  destruct (_ || _); cbn [fst snd]; [discriminate |].
  intros [= <-] Hup Hnone.
  cbn [started_game include_players game_data player1Id game_id] in *.
  rewrite !checkMatchmakingStatus_eq. cbn [queue games].
  rewrite has_delete_same, Hup, filter_app, (filter_all_false _ _ Hnone).
  cbn [app filter]. unfold recent_game_of.
  cbn [started_game include_players game_data player1Id player2Id
       game_gameType status startedAt].
  rewrite !String.eqb_refl. cbn [orb andb].
  split; intros Ht.
  - apply Z.leb_le in Ht. rewrite Ht. reflexivity.
  - apply Z.leb_gt in Ht. rewrite Ht. reflexivity.
Qed.

(** The theorem for alice, matched by bob's start request at time 5000:
    her poll at time 20000 reports the game. *)
Lemma waiting_player_learns_of_the_match_witness :
  let w := mkWorld [("alice", mkEntry 1000 0 "ayo")] [] in
  let w' := snd (startMatchmaking (healthy 5000) "bob" "ayo" w) in
  checkMatchmakingStatus (healthy 20000) "alice" "ayo" w'
  = (MatchFound (started_game (healthy 5000) "ayo" "alice" "bob"), w').
Proof.
  destruct (waiting_player_learns_of_the_match (healthy 5000) (healthy 20000)
              "bob" "ayo" (mkWorld [("alice", mkEntry 1000 0 "ayo")] [])
              (started_game (healthy 5000) "ayo" "alice" "bob")
              eq_refl eq_refl (fun g (H : In g []) => match H with end))
    as [H _].
  apply H. cbn. discriminate.
Defined.

(** X10. Polling does not keep an entry alive: a status request that
    answers "still searching" leaves the whole state, the poller's entry
    and its timestamp included, exactly as it was and reports the size of
    the whole queue; the clean-up pass therefore removes the entry of a
    player who keeps polling once it is more than 5 minutes old. *)
Theorem polling_does_not_keep_an_entry_alive (env : Env) (userId : UserId)
    (gameType0 : string) (w : World) (n : nat) (data : QueueEntry) (now : Z) :
  JsMap.wf (queue w) ->
  JsMap.get userId (queue w) = Some data ->
  fst (checkMatchmakingStatus env userId gameType0 w) = StillSearching n ->
  let w' := snd (checkMatchmakingStatus env userId gameType0 w) in
  w' = w /\
  n = JsMap.size (queue w) /\
  (age now data > 5 * 60 * 1000 ->
   JsMap.has userId (queue (cleanup now w')) = false).
Proof.
  intros Hwf Hget.
  assert (Hhas : JsMap.has userId (queue w) = true)
    by (unfold JsMap.has; now rewrite Hget).
  rewrite checkMatchmakingStatus_eq, Hhas.
  destruct (env_fails env UserLookup); [discriminate |].
  destruct (env_users env userId) as [row |]; [| discriminate].
  destruct (findBestMatch _ _ _ _) as [m |];
    [cbv zeta; destruct (env_fails env GameCreate); discriminate |].
  cbn [fst snd]. intros [= <-]. split; [reflexivity |]. split; [reflexivity |].
  intros Hold. unfold cleanup. cbn [queue].
  rewrite (cleanup_loop_filter now _ Hwf).
  apply has_false_iff. intros Hin. unfold JsMap.keys in Hin.
  apply in_map_iff in Hin as [[k d] [Hk Hin]]. cbn [fst] in Hk. subst k.
  apply filter_In in Hin as [Hin Hyoung]. cbn [snd] in Hyoung.
  pose proof (in_get _ _ _ Hwf Hin) as Hget'. rewrite Hget in Hget'.
  injection Hget' as <-. unfold age, TIMEOUT in *.
  apply negb_true_iff in Hyoung. rewrite Z.gtb_ltb in Hyoung.
  apply Z.ltb_ge in Hyoung. lia.
Qed.

(** The theorem for alice, queued at time 0, who polls at time 299000:
    the pass at time 301000 removes her. *)
Lemma polling_does_not_keep_an_entry_alive_witness :
  let w := mkWorld [("alice", mkEntry 1000 0 "ayo")] [] in
  snd (checkMatchmakingStatus (healthy 299000) "alice" "ayo" w) = w /\
  JsMap.has "alice"
    (queue (cleanup 301000
              (snd (checkMatchmakingStatus (healthy 299000) "alice" "ayo" w))))
  = false.
Proof.
  assert (Hwf : JsMap.wf [("alice", mkEntry 1000 0 "ayo")]).
  { repeat constructor. intros []. }
  destruct (polling_does_not_keep_an_entry_alive (healthy 299000) "alice" "ayo"
              (mkWorld [("alice", mkEntry 1000 0 "ayo")] []) 1
              (mkEntry 1000 0 "ayo") 301000 Hwf eq_refl eq_refl)
    as (H1 & _ & H2).
  split; [exact H1 |]. apply H2. unfold age. cbn. lia.
Defined.

(** X11. When [prisma.game.create] rejects during a status request that
    has selected an opponent, the request answers 500 and nothing is
    rolled back: the poller's own entry and the opponent's entry are both
    gone, the other entries are as before, and no game has been stored. *)
Theorem rejected_creation_in_status_drops_both_entries (env : Env)
    (userId : UserId) (gameType0 : string) (w : World) (row : UserRow)
    (m : BestMatch) :
  JsMap.has userId (queue w) = true ->
  env_fails env UserLookup = false ->
  env_users env userId = Some row ->
  findBestMatch (row_rating row) gameType0 userId (queue w) = Some m ->
  env_fails env GameCreate = true ->
  let r := fst (checkMatchmakingStatus env userId gameType0 w) in
  let w' := snd (checkMatchmakingStatus env userId gameType0 w) in
  r = Failure "Failed to check matchmaking status" /\
  JsMap.has userId (queue w') = false /\
  JsMap.has (bm_userId m) (queue w') = false /\
  (forall k d, k <> userId -> k <> bm_userId m ->
     (In (k, d) (queue w') <-> In (k, d) (queue w))) /\
  games w' = games w.
Proof.
  intros Hhas Hup Hrow Hm Hcreate r w'. subst r w'.
  rewrite checkMatchmakingStatus_eq, Hhas, Hup, Hrow, Hm. cbv zeta.
  rewrite Hcreate. cbn [fst snd queue games].
  split; [reflexivity |].
  split; [apply has_delete_other, has_delete_same |].
  split; [apply has_delete_same |]. split; [| reflexivity].
  intros k d Hk1 Hk2. rewrite !in_delete. tauto.
Qed.

(** The theorem for alice's poll while bob waits for the same game and
    the store rejects the creation. *)
Lemma rejected_creation_in_status_drops_both_entries_witness :
  let w := mkWorld [("alice", mkEntry 1000 0 "ludo");
                    ("bob", mkEntry 1050 1 "ayo")] [] in
  let w' := snd (checkMatchmakingStatus (create_rejects 3) "alice" "ayo" w) in
  JsMap.has "alice" (queue w') = false /\ JsMap.has "bob" (queue w') = false.
Proof.
  destruct (rejected_creation_in_status_drops_both_entries (create_rejects 3)
              "alice" "ayo"
              (mkWorld [("alice", mkEntry 1000 0 "ludo");
                        ("bob", mkEntry 1050 1 "ayo")] [])
              (mkUserRow (Some "Alice") 1000) (mkBestMatch "bob" 1050 1 "ayo")
              eq_refl eq_refl eq_refl eq_refl eq_refl)
    as (_ & H1 & H2 & _).
  split; assumption.
Defined.

(** X12. A status request of a queued player whose user row cannot be
    read, because the lookup rejects or because it finds no user (reading
    the rating of the missing user throws), answers 500 and leaves the
    whole state as it was: the player stays in the queue. *)
Theorem status_without_requester_changes_nothing (env : Env) (userId : UserId)
    (gameType0 : string) (w : World) :
  JsMap.has userId (queue w) = true ->
  env_fails env UserLookup = true \/ env_users env userId = None ->
  checkMatchmakingStatus env userId gameType0 w
  = (Failure "Failed to check matchmaking status", w).
Proof.
  intros Hhas H. rewrite checkMatchmakingStatus_eq, Hhas.
  destruct (env_fails env UserLookup); [reflexivity |].
  destruct H as [H | H]; [discriminate |]. now rewrite H.
Qed.

(** The theorem for a queued player the store no longer knows. *)
Lemma status_without_requester_changes_nothing_witness :
  checkMatchmakingStatus (healthy 3) "mallory" "ayo"
    (mkWorld [("mallory", mkEntry 1000 0 "ayo")] [])
  = (Failure "Failed to check matchmaking status",
     mkWorld [("mallory", mkEntry 1000 0 "ayo")] []).
Proof.
  apply (status_without_requester_changes_nothing (healthy 3) "mallory" "ayo"
           (mkWorld [("mallory", mkEntry 1000 0 "ayo")] []) eq_refl).
  right. reflexivity.
Defined.

(** ** The search in the queues that runs reach *)

Lemma candidates_le_partition g x (q : Queue) :
  (List.length (filter (is_candidate g x) q)
   <= List.length (partition_of g q))%nat.
Proof.
  unfold partition_of, is_candidate.
  induction q as [| [k d] q IH]; [cbn; lia |]. cbn [filter fst snd].
  destruct (String.eqb (gameType d) g);
    destruct (negb (String.eqb k x)); cbn [andb List.length]; lia.
Qed.

(** X13. In every run from the empty queue a game type never has two
    waiting entries: after any sequence of start, cancel, status and
    clean-up operations, at most one entry of each game type is in the
    queue, so two players waiting for the same game type are never both
    left in the queue. *)
Theorem one_waiting_entry_per_game_type (ops : list Op) (stored : list Game)
    (gameType0 : string) :
  let q := queue (run ops (initial stored)) in
  (JsMap.size (partition_of gameType0 q) <= 1)%nat /\
  forall k1 d1 k2 d2,
    In (k1, d1) q -> In (k2, d2) q ->
    gameType d1 = gameType0 -> gameType d2 = gameType0 ->
    k1 = k2 /\ d1 = d2.
Proof.
  intros q.
  pose proof (reachable_partition_at_most_one ops stored gameType0) as Hone.
  fold q in Hone. split; [exact Hone |].
  intros k1 d1 k2 d2 H1 H2 G1 G2.
  assert (P1 : In (k1, d1) (partition_of gameType0 q))
    by (apply filter_In; split; [exact H1 | now apply String.eqb_eq]).
  assert (P2 : In (k2, d2) (partition_of gameType0 q))
    by (apply filter_In; split; [exact H2 | now apply String.eqb_eq]).
  destruct (partition_of gameType0 q) as [| kv [| kv' rest]];
    [destruct P1 | | cbn in Hone; lia].
  destruct P1 as [E1 | []]. destruct P2 as [E2 | []].
  rewrite E1 in E2. injection E2 as <- <-. now split.
Qed.

(** X14. In every run from the empty queue the rating plays no part in
    the choice of the opponent: the search has at most one candidate, and
    it returns that candidate, the only other player waiting for the game
    type, whatever the requester's rating and the candidate's rating
    are. *)
Theorem reachable_search_ignores_rating (ops : list Op) (stored : list Game)
    (playerRating : Z) (gameType0 : string) (excludeUserId : UserId) :
  let q := queue (run ops (initial stored)) in
  (List.length (filter (is_candidate gameType0 excludeUserId) q) <= 1)%nat /\
  findBestMatch playerRating gameType0 excludeUserId q
  = option_map match_of (hd_error (filter (is_candidate gameType0 excludeUserId) q)) /\
  forall otherRating,
    findBestMatch otherRating gameType0 excludeUserId q
    = findBestMatch playerRating gameType0 excludeUserId q.
Proof.
  intros q.
  assert (Hlen : (List.length (filter (is_candidate gameType0 excludeUserId) q)
                  <= 1)%nat).
  { pose proof (candidates_le_partition gameType0 excludeUserId q).
    pose proof (reachable_partition_at_most_one ops stored gameType0).
    subst q. lia. }
  assert (Hhead : forall r,
            findBestMatch r gameType0 excludeUserId q
            = option_map match_of
                (hd_error (filter (is_candidate gameType0 excludeUserId) q))).
  { intros r. unfold findBestMatch, JsMap.entries.
    rewrite findBestMatch_loop_filter.
    pose proof (fun kv => proj1 (filter_In (is_candidate gameType0 excludeUserId) kv q))
      as Hcand.
    destruct (filter (is_candidate gameType0 excludeUserId) q)
      as [| [k d] [| kv2 rest]]; [reflexivity | | cbn in Hlen; lia].
    destruct (Hcand (k, d) (or_introl eq_refl)) as [_ Hc].
    cbn [findBestMatch_loop]. cbv zeta.
    rewrite skip_iff_not_candidate, Hc. reflexivity. }
  split; [exact Hlen |]. split; [apply Hhead |].
  intros r'. now rewrite !Hhead.
Qed.

(** ** Clean-up passes *)

Lemma cleanup_queue now w :
  JsMap.wf (queue w) ->
  queue (cleanup now w)
  = filter (fun kv => negb (now - timestamp (snd kv) >? TIMEOUT)) (queue w).
Proof. intros Hwf. unfold cleanup. cbn [queue]. now apply cleanup_loop_filter. Qed.

Lemma filter_filter_implied {A} (f g : A -> bool) l :
  (forall x, g x = true -> f x = true) ->
  filter g (filter f l) = filter g l.
Proof.
  intros H. induction l as [| x l IH]; [reflexivity |].
  cbn [filter]. destruct (f x) eqn:Hf; cbn [filter].
  - now rewrite IH.
  - destruct (g x) eqn:Hg; [| exact IH].
    rewrite (H x Hg) in Hf. discriminate.
Qed.

(** X15. A later clean-up pass subsumes an earlier one: running the pass
    at a time and then again at the same or a later time leaves exactly
    the state that the later pass alone leaves; in particular running it
    twice at one time is the same as running it once. *)
Theorem later_cleanup_subsumes_earlier (now1 now2 : Z) (w : World) :
  JsMap.wf (queue w) ->
  now1 <= now2 ->
  cleanup now2 (cleanup now1 w) = cleanup now2 w /\
  cleanup now1 (cleanup now1 w) = cleanup now1 w.
Proof.
  intros Hwf Hle.
  assert (G : forall a b, a <= b -> cleanup b (cleanup a w) = cleanup b w).
  { intros a b Hab.
    assert (Hwf1 : JsMap.wf (queue (cleanup a w))) by now apply cleanup_wf.
    pose proof (cleanup_queue b _ Hwf1) as Hq.
    rewrite (cleanup_queue a _ Hwf) in Hq.
    rewrite filter_filter_implied in Hq.
    - rewrite <- (cleanup_queue b _ Hwf) in Hq.
      destruct (cleanup b (cleanup a w)) as [q2 g2] eqn:E2.
      destruct (cleanup b w) as [q3 g3] eqn:E3.
      cbn [queue] in Hq. subst q3. f_equal.
      assert (H2 : games (cleanup b (cleanup a w)) = games w) by reflexivity.
      assert (H3 : games (cleanup b w) = games w) by reflexivity.
      rewrite E2 in H2. rewrite E3 in H3. cbn in H2, H3. congruence.
    - intros kv Hkv. apply negb_true_iff in Hkv. apply negb_true_iff.
      rewrite Z.gtb_ltb in *. apply Z.ltb_ge in Hkv. apply Z.ltb_ge. lia. }
  split; [now apply G | apply G; lia].
Qed.

(** The theorem for a pass at 6 minutes after a pass at 4 minutes. *)
Lemma later_cleanup_subsumes_earlier_witness :
  let w := mkWorld [("alice", mkEntry 1000 0 "ayo");
                    ("bob", mkEntry 1050 200000 "ludo")] [] in
  cleanup 360000 (cleanup 240000 w) = cleanup 360000 w.
Proof.
  assert (Hwf : JsMap.wf [("alice", mkEntry 1000 0 "ayo");
                          ("bob", mkEntry 1050 200000 "ludo")]).
  { repeat constructor; cbn; intuition discriminate. }
  assert (Hle : 240000 <= 360000) by lia.
  exact (proj1 (later_cleanup_subsumes_earlier 240000 360000
                  (mkWorld [("alice", mkEntry 1000 0 "ayo");
                            ("bob", mkEntry 1050 200000 "ludo")] [])
                  Hwf Hle)).
Defined.

(** * The game controller *)

Lemma include_players_data env id data :
  game_data (include_players env id data) = data.
Proof. reflexivity. Qed.

Lemma include_players_id env id data :
  game_id (include_players env id data) = id.
Proof. reflexivity. Qed.

Lemma createGame_eq env userId gameType0 w :
  createGame env userId gameType0 w =
  if env_fails env GameCreate then (GameFailure "Failed to create game", w)
  else
    let game := include_players env (env_newGameId env)
                  (mkGameData gameType0 userId None "WAITING" None None) in
    (GameCreated game, mkWorld (queue w) (games w ++ [game])).
Proof.
  unfold createGame, createGame_body. unfold_game_handler.
  destruct (env_fails env GameCreate); reflexivity.
Qed.

Lemma joinGame_eq genv gameId userId w :
  joinGame genv gameId userId w =
  if ge_findUnique_fails genv then (GameFailure "Failed to join game", w)
  else
    match find (fun g => String.eqb (game_id g) gameId) (games w) with
    | None => (GameNotFound, w)
    | Some g =>
        if negb (String.eqb (status (game_data g)) "WAITING")
        then (GameNotAvailable, w)
        else if String.eqb (player1Id (game_data g)) userId
        then (CannotJoinOwnGame, w)
        else if ge_update_fails genv
        then (GameFailure "Failed to join game", w)
        else
          (GameJoined
             (include_players (ge_env genv) (game_id g)
                (joined userId (env_now (ge_env genv)) (game_data g))),
           mkWorld (queue w)
             (update_row gameId
                (fun g => include_players (ge_env genv) (game_id g)
                            (joined userId (env_now (ge_env genv)) (game_data g)))
                (games w)))
    end.
Proof.
  unfold joinGame, joinGame_body. unfold_game_handler.
  destruct (ge_findUnique_fails genv); [reflexivity |].
  destruct (find _ (games w)) as [g |] eqn:Hfind; cbn [option_map];
    [| reflexivity].
  rewrite include_players_data.
  destruct (negb (String.eqb (status (game_data g)) "WAITING")); [reflexivity |].
  destruct (String.eqb (player1Id (game_data g)) userId); [reflexivity |].
  destruct (ge_update_fails genv); [reflexivity |].
  rewrite Hfind. reflexivity.
Qed.

Lemma getGame_eq genv gameId w :
  getGame genv gameId w =
  if ge_findUnique_fails genv then (GameFailure "Failed to fetch game", w)
  else
    match find (fun g => String.eqb (game_id g) gameId) (games w) with
    | None => (GameNotFound, w)
    | Some g =>
        (GameFetched (include_players (ge_env genv) (game_id g) (game_data g)), w)
    end.
Proof.
  unfold getGame, getGame_body. unfold_game_handler.
  destruct (ge_findUnique_fails genv); [reflexivity |].
  destruct (find _ (games w)); reflexivity.
Qed.

Lemma find_split (gameId : string) (rows : list Game) g :
  find (fun g => String.eqb (game_id g) gameId) rows = Some g ->
  exists before after,
    rows = before ++ g :: after /\
    game_id g = gameId /\
    (forall g', In g' before -> game_id g' <> gameId).
Proof.
  induction rows as [| row rows IH]; cbn [find]; [discriminate |].
  destruct (String.eqb_spec (game_id row) gameId) as [E | E].
  - intros [= <-]. exists [], rows. split; [reflexivity |].
    split; [exact E | intros g' []].
  - intros H. apply IH in H as (b & a & -> & Hid & Hb).
    exists (row :: b), a. split; [reflexivity |]. split; [exact Hid |].
    intros g' [<- | Hin]; auto.
Qed.

Lemma update_row_split (gameId : string) (f : Game -> Game) before g after :
  (forall g', In g' before -> game_id g' <> gameId) ->
  game_id g = gameId ->
  update_row gameId f (before ++ g :: after) = before ++ f g :: after.
Proof.
  intros Hb Hg. induction before as [| b before IH]; cbn [app update_row].
  - apply String.eqb_eq in Hg. now rewrite Hg.
  - assert (Hne : String.eqb (game_id b) gameId = false)
      by (apply String.eqb_neq, Hb; now left).
    rewrite Hne. f_equal. apply IH. intros g' Hin. apply Hb. now right.
Qed.

Lemma find_after_update (gameId : string) (f : Game -> Game) before g after :
  (forall g', In g' before -> game_id g' <> gameId) ->
  game_id (f g) = gameId ->
  find (fun g => String.eqb (game_id g) gameId) (before ++ f g :: after)
  = Some (f g).
Proof.
  intros Hb Hg. induction before as [| b before IH]; cbn [app find].
  - apply String.eqb_eq in Hg. now rewrite Hg.
  - assert (Hne : String.eqb (game_id b) gameId = false)
      by (apply String.eqb_neq, Hb; now left).
    rewrite Hne. apply IH. intros g' Hin. apply Hb. now right.
Qed.

(** X16. [joinGame] lets a player join only a stored game that is
    "WAITING" and was created by somebody else: an answer "joined" means
    that exactly this game has been rewritten in place, with the player
    as second player, status "IN_PROGRESS" and the start time of the
    request, its id, game type and first player kept, and that every
    other game and the matchmaking queue are as before; every other answer
    (not found, not available, own game, 500) leaves the whole state as it
    was. *)
Theorem joinGame_joins_a_waiting_game_of_another_player (genv : GameEnv)
    (gameId : string) (userId : UserId) (w : World) :
  let r := fst (joinGame genv gameId userId w) in
  let w' := snd (joinGame genv gameId userId w) in
  queue w' = queue w /\
  ((forall game, r <> GameJoined game) -> w' = w) /\
  (forall game, r = GameJoined game ->
     exists g before after,
       games w = before ++ g :: after /\
       games w' = before ++ game :: after /\
       (forall g', In g' before -> game_id g' <> gameId) /\
       game_id g = gameId /\
       status (game_data g) = "WAITING" /\
       player1Id (game_data g) <> userId /\
       game_id game = gameId /\
       game_data game
       = mkGameData (game_gameType (game_data g)) (player1Id (game_data g))
           (Some userId) "IN_PROGRESS" (currentTurn (game_data g))
           (Some (env_now (ge_env genv)))).
Proof.
  intros r w'. subst r w'. rewrite joinGame_eq.
  destruct (ge_findUnique_fails genv);
    [cbn [fst snd]; split; [reflexivity | split; [reflexivity | discriminate]] |].
  destruct (find _ (games w)) as [g |] eqn:Hfind;
    [| cbn [fst snd]; split; [reflexivity | split; [reflexivity | discriminate]]].
  destruct (String.eqb_spec (status (game_data g)) "WAITING") as [Hs | Hs];
    cbn [negb];
    [| cbn [fst snd]; split; [reflexivity | split; [reflexivity | discriminate]]].
  destruct (String.eqb_spec (player1Id (game_data g)) userId) as [Hp | Hp];
    [cbn [fst snd]; split; [reflexivity | split; [reflexivity | discriminate]] |].
  destruct (ge_update_fails genv);
    [cbn [fst snd]; split; [reflexivity | split; [reflexivity | discriminate]] |].
  cbn [fst snd queue games]. split; [reflexivity |]. split.
  - intros Hno. exfalso. exact (Hno _ eq_refl).
  - intros game [= <-].
    apply find_split in Hfind as (b & a & Hsplit & Hid & Hb).
    exists g, b, a. rewrite Hsplit at 2.
    rewrite (update_row_split _ _ _ _ _ Hb Hid).
    repeat split; try assumption.
Qed.

Lemma find_append {A} (f : A -> bool) l1 l2 :
  find f (l1 ++ l2)
  = match find f l1 with Some x => Some x | None => find f l2 end.
Proof.
  induction l1 as [| x l1 IH]; cbn [app find]; [reflexivity |].
  destruct (f x); [reflexivity | exact IH].
Qed.

Lemma step_games_append op w :
  exists added, games (snd (step op w)) = games w ++ added.
Proof.
  destruct op as [env u g | u | env u g | now]; cbn [step].
  - rewrite startMatchmaking_eq.
    destruct (env_fails env UserLookup); [exists []; now rewrite app_nil_r |].
    destruct (env_users env u) as [row |]; [| exists []; now rewrite app_nil_r].
    cbv zeta. destruct (findBestMatch _ _ _ _) as [m |];
      [| exists []; now rewrite app_nil_r].
    destruct (_ || _); cbn [snd games];
      [exists []; now rewrite app_nil_r | eauto].
  - rewrite cancelMatchmaking_eq.
    destruct (JsMap.has u (queue w)); exists []; now rewrite app_nil_r.
  - rewrite checkMatchmakingStatus_eq. destruct (JsMap.has u (queue w)).
    + destruct (env_fails env UserLookup); [exists []; now rewrite app_nil_r |].
      destruct (env_users env u) as [row |]; [| exists []; now rewrite app_nil_r].
      destruct (findBestMatch _ _ _ _) as [m |];
        [| exists []; now rewrite app_nil_r].
      cbv zeta. destruct (env_fails env GameCreate); cbn [snd games];
        [exists []; now rewrite app_nil_r | eauto].
    + destruct (env_fails env GameFindFirst); [exists []; now rewrite app_nil_r |].
      destruct (latest _ _); exists []; now rewrite app_nil_r.
  - exists []. cbn. now rewrite app_nil_r.
Qed.

Lemma find_update_other (gameId gameId2 : string) (f : Game -> Game) rows :
  gameId2 <> gameId ->
  (forall g, game_id (f g) = game_id g) ->
  find (fun g => String.eqb (game_id g) gameId) (update_row gameId2 f rows)
  = find (fun g => String.eqb (game_id g) gameId) rows.
Proof.
  intros Hne Hid. induction rows as [| row rows IH]; [reflexivity |].
  cbn [update_row]. destruct (String.eqb_spec (game_id row) gameId2) as [E | E].
  - cbn [find]. rewrite Hid.
    destruct (String.eqb_spec (game_id row) gameId) as [E' | E'];
      [congruence | reflexivity].
  - cbn [find]. destruct (String.eqb (game_id row) gameId); [reflexivity | exact IH].
Qed.

(** The game found under an id is no longer waiting: kept by every request
    of the two controllers. *)
Lemma serve_keeps_started (gameId : string) req w :
  (exists g, find (fun g => String.eqb (game_id g) gameId) (games w) = Some g /\
             status (game_data g) <> "WAITING") ->
  exists g, find (fun g => String.eqb (game_id g) gameId) (games (serve req w))
            = Some g /\
            status (game_data g) <> "WAITING".
Proof.
  intros (g & Hfind & Hst).
  destruct req as [op | env u g0 | genv id2 u | genv id2]; cbn [serve].
  - destruct (step_games_append op w) as [added ->].
    exists g. rewrite find_append, Hfind. now split.
  - rewrite createGame_eq. destruct (env_fails env GameCreate); cbn [snd games];
      [now exists g |].
    exists g. rewrite find_append, Hfind. now split.
  - rewrite joinGame_eq. destruct (ge_findUnique_fails genv); [now exists g |].
    destruct (String.eqb_spec id2 gameId) as [E | E].
    + subst id2. rewrite Hfind.
      destruct (String.eqb_spec (status (game_data g)) "WAITING") as [Hs | Hs];
        [contradiction |].
      cbn [negb snd]. now exists g.
    + destruct (find (fun g => String.eqb (game_id g) id2) (games w)) as [g2 |];
        [| now exists g].
      destruct (negb _); [now exists g |].
      destruct (String.eqb _ u); [now exists g |].
      destruct (ge_update_fails genv); [now exists g |].
      cbn [snd games]. exists g.
      rewrite (find_update_other gameId id2); [now split | exact E | reflexivity].
  - rewrite getGame_eq. destruct (ge_findUnique_fails genv); [now exists g |].
    destruct (find (fun g => String.eqb (game_id g) id2) (games w));
      now exists g.
Qed.

(** X17. A game that has been joined stays closed to [joinGame] through
    every request modelled here: after [joinGame] has answered "joined",
    and after any further sequence of matchmaking operations and of
    [createGame], [joinGame] and [getGame] requests, a [joinGame] for the
    same game, by anybody, answers "not available" (when the store
    answers) and changes nothing.  [updateGameState], which can write the
    status of a game, is not one of these requests. *)
Theorem joined_game_cannot_be_joined_again (genv genv' : GameEnv)
    (gameId : string) (userId userId' : UserId) (w : World) (game : Game)
    (reqs : list Request) :
  fst (joinGame genv gameId userId w) = GameJoined game ->
  ge_findUnique_fails genv' = false ->
  let w' := serve_all reqs (snd (joinGame genv gameId userId w)) in
  joinGame genv' gameId userId' w' = (GameNotAvailable, w').
Proof.
  intros Hjoined Hup'.
  assert (Hstarted : exists g,
            find (fun g => String.eqb (game_id g) gameId)
              (games (snd (joinGame genv gameId userId w))) = Some g /\
            status (game_data g) <> "WAITING").
  { revert Hjoined. rewrite joinGame_eq.
    destruct (ge_findUnique_fails genv); [discriminate |].
    destruct (find _ (games w)) as [g |] eqn:Hfind; [| discriminate].
    destruct (negb (String.eqb (status (game_data g)) "WAITING")); [discriminate |].
    destruct (String.eqb (player1Id (game_data g)) userId); [discriminate |].
    destruct (ge_update_fails genv); [discriminate |].
    cbn [fst snd games]. intros _.
    apply find_split in Hfind as (b & a & Hsplit & Hid & Hb).
    rewrite Hsplit, (update_row_split _ _ _ _ _ Hb Hid).
    eexists. split.
    - apply (find_after_update gameId
               (fun g => include_players (ge_env genv) (game_id g)
                           (joined userId (env_now (ge_env genv)) (game_data g)))
               b g a Hb Hid).
    - cbn. discriminate. }
  clear Hjoined.
  generalize dependent (snd (joinGame genv gameId userId w)).
  induction reqs as [| req reqs IH]; intros w0 Hstarted; cbn [serve_all].
  - destruct Hstarted as (g & Hfind & Hst).
    rewrite joinGame_eq, Hup', Hfind.
    destruct (String.eqb_spec (status (game_data g)) "WAITING") as [Hs | Hs];
      [contradiction | reflexivity].
  - apply IH. now apply serve_keeps_started.
Qed.

(** The theorem for a game of alice that bob has joined: after dave has
    opened a game of his own and carol has polled her matchmaking status,
    carol cannot join alice's game. *)
Lemma joined_game_cannot_be_joined_again_witness :
  let w := snd (createGame (healthy 0) "alice" "ayo" (initial [])) in
  let w' := serve_all [CreateGame (mkEnv 6 sample_users (fun _ => false) "game-2")
                         "dave" "ludo";
                       Matchmaking (OpStatus (healthy 7) "carol" "ayo")]
              (snd (joinGame (healthy_game 5) "game-1" "bob" w)) in
  joinGame (healthy_game 9) "game-1" "carol" w' = (GameNotAvailable, w').
Proof.
  exact (joined_game_cannot_be_joined_again (healthy_game 5) (healthy_game 9)
           "game-1" "bob" "carol"
           (snd (createGame (healthy 0) "alice" "ayo" (initial [])))
           (include_players (healthy 5) "game-1"
              (joined "bob" 5
                 (mkGameData "ayo" "alice" None "WAITING" None None)))
           [CreateGame (mkEnv 6 sample_users (fun _ => false) "game-2")
              "dave" "ludo";
            Matchmaking (OpStatus (healthy 7) "carol" "ayo")]
           eq_refl eq_refl).
Defined.

Lemma serve_two_players req w :
  Forall two_players (games w) -> Forall two_players (games (serve req w)).
Proof.
  intros Hg. destruct req as [op | env u g | genv gameId u | genv gameId];
    cbn [serve].
  - now apply step_two_players.
  - rewrite createGame_eq. destruct (env_fails env GameCreate); [exact Hg |].
    cbn [snd games]. apply Forall_snoc; [exact Hg |].
    unfold two_players. cbn. discriminate.
  - rewrite joinGame_eq. destruct (ge_findUnique_fails genv); [exact Hg |].
    destruct (find _ (games w)) as [g |] eqn:Hfind; [| exact Hg].
    destruct (negb _); [exact Hg |].
    destruct (String.eqb_spec (player1Id (game_data g)) u) as [Hp | Hp];
      [exact Hg |].
    destruct (ge_update_fails genv); [exact Hg |].
    cbn [snd games].
    apply find_split in Hfind as (b & a & Hsplit & Hid & Hb).
    rewrite Hsplit in *. rewrite (update_row_split _ _ _ _ _ Hb Hid).
    apply Forall_app in Hg as [Hgb Hga].
    inversion Hga as [| ? ? _ Hrest]; subst.
    apply Forall_app. split; [exact Hgb |].
    constructor; [| exact Hrest].
    unfold two_players. cbn. congruence.
  - rewrite getGame_eq. destruct (ge_findUnique_fails genv); [exact Hg |].
    destruct (find _ (games w)); exact Hg.
Qed.

Lemma serve_queue req w :
  match req with
  | Matchmaking _ => True
  | _ => queue (serve req w) = queue w
  end.
Proof.
  destruct req as [op | env u g | genv gameId u | genv gameId]; cbn [serve];
    [exact I | | |].
  - rewrite createGame_eq. destruct (env_fails env GameCreate); reflexivity.
  - rewrite joinGame_eq. destruct (ge_findUnique_fails genv); [reflexivity |].
    destruct (find _ (games w)) as [g |]; [| reflexivity].
    destruct (negb _); [reflexivity |].
    destruct (String.eqb _ u); [reflexivity |].
    destruct (ge_update_fails genv); reflexivity.
  - rewrite getGame_eq. destruct (ge_findUnique_fails genv); [reflexivity |].
    destruct (find _ (games w)); reflexivity.
Qed.

Lemma serve_wf req w :
  JsMap.wf (queue w) -> JsMap.wf (queue (serve req w)).
Proof.
  intros Hwf. pose proof (serve_queue req w) as Hq.
  destruct req; [now apply step_wf | | |]; now rewrite Hq.
Qed.

(** X18. The two controllers together never store a game of a player
    against themselves: when the games held at start-up are between two
    different players, then after any sequence of matchmaking operations
    and of [createGame], [joinGame] and [getGame] requests every stored
    game is between two different players (a game that is still waiting
    has no second player), the queue still has one entry per player, and
    every "matched" answer of a further matchmaking operation carries a
    game of two different players. *)
Theorem controllers_keep_two_players (reqs : list Request) (stored : list Game) :
  Forall two_players stored ->
  let w := serve_all reqs (initial stored) in
  Forall two_players (games w) /\
  JsMap.wf (queue w) /\
  forall op game,
    fst (step op w) = Some (MatchFound game) -> two_players game.
Proof.
  intros Hstored w.
  assert (G : forall reqs w0,
             Forall two_players (games w0) -> JsMap.wf (queue w0) ->
             Forall two_players (games (serve_all reqs w0))
             /\ JsMap.wf (queue (serve_all reqs w0))).
  { clear. induction reqs as [| req reqs IH]; intros w0 Hg Hwf; cbn [serve_all];
      [now split |].
    apply IH; [now apply serve_two_players | now apply serve_wf]. }
  destruct (G reqs (initial stored) Hstored (initial_wf stored)) as [Hg Hwf].
  split; [exact Hg |]. split; [exact Hwf |].
  intros op game. now apply step_two_players.
Qed.

(** The theorem for a lobby game of alice joined by bob, followed by a
    status request of bob. *)
Lemma controllers_keep_two_players_witness :
  Forall two_players
    (games (serve_all [CreateGame (healthy 0) "alice" "ayo";
                       JoinGame (healthy_game 5) "game-1" "bob"]
              (initial []))).
Proof.
  exact (proj1 (controllers_keep_two_players
                  [CreateGame (healthy 0) "alice" "ayo";
                   JoinGame (healthy_game 5) "game-1" "bob"] []
                  (Forall_nil _))).
Defined.

Lemma find_fresh (gameId : string) (rows : list Game) g :
  (forall g', In g' rows -> game_id g' <> gameId) ->
  game_id g = gameId ->
  find (fun g => String.eqb (game_id g) gameId) (rows ++ [g]) = Some g.
Proof.
  intros Hrows Hg.
  exact (find_after_update gameId (fun x => x) rows g [] Hrows Hg).
Qed.

(** X19. A game made by [createGame] under an id that no stored game has
    can afterwards be fetched, cannot be joined by its creator (the
    request answers "cannot join your own game" and changes nothing), and
    can be joined by any other player, which makes the creator the first
    and the joiner the second player of a game "IN_PROGRESS" started at
    the time of the join. *)
Theorem created_game_is_joined_by_another_player (env : Env) (genv : GameEnv)
    (creator joiner : UserId) (gameType0 : string) (w : World) :
  env_fails env GameCreate = false ->
  (forall g, In g (games w) -> game_id g <> env_newGameId env) ->
  ge_findUnique_fails genv = false ->
  let id := env_newGameId env in
  let waiting := mkGameData gameType0 creator None "WAITING" None None in
  let w1 := snd (createGame env creator gameType0 w) in
  fst (createGame env creator gameType0 w)
  = GameCreated (include_players env id waiting) /\
  getGame genv id w1
  = (GameFetched (include_players (ge_env genv) id waiting), w1) /\
  joinGame genv id creator w1 = (CannotJoinOwnGame, w1) /\
  (joiner <> creator -> ge_update_fails genv = false ->
   let running := mkGameData gameType0 creator (Some joiner) "IN_PROGRESS"
                    None (Some (env_now (ge_env genv))) in
   joinGame genv id joiner w1
   = (GameJoined (include_players (ge_env genv) id running),
      mkWorld (queue w)
        (games w ++ [include_players (ge_env genv) id running]))).
Proof.
  intros Hcreate Hfresh Hfind id waiting w1. subst w1.
  rewrite createGame_eq, Hcreate. cbv zeta. cbn [fst snd]. fold id waiting.
  assert (Hf : find (fun g => String.eqb (game_id g) id)
                 (games w ++ [include_players env id waiting])
               = Some (include_players env id waiting))
    by (apply find_fresh; [exact Hfresh | reflexivity]).
  split; [reflexivity |]. split; [| split].
  - rewrite getGame_eq, Hfind. cbn [games]. rewrite Hf. reflexivity.
  - rewrite joinGame_eq, Hfind. cbn [games]. rewrite Hf. subst waiting.
    cbn [include_players game_data status player1Id].
    rewrite !String.eqb_refl. reflexivity.
  - intros Hne Hup. cbv zeta. rewrite joinGame_eq, Hfind. cbn [games queue].
    rewrite Hf.
    rewrite (update_row_split id _ (games w) (include_players env id waiting) []
               Hfresh eq_refl).
    subst waiting.
    cbn [include_players game_data status player1Id game_id joined
         game_gameType currentTurn].
    apply String.eqb_neq in Hne. rewrite String.eqb_sym in Hne.
    rewrite String.eqb_refl, Hne, Hup. reflexivity.
Qed.

(** The theorem for a game created by alice and joined by bob. *)
Lemma created_game_is_joined_by_another_player_witness :
  joinGame (healthy_game 5) "game-1" "bob"
    (snd (createGame (healthy 0) "alice" "ayo" (initial [])))
  = (GameJoined (include_players (healthy 5) "game-1"
                   (mkGameData "ayo" "alice" (Some "bob") "IN_PROGRESS" None
                      (Some 5))),
     mkWorld []
       [include_players (healthy 5) "game-1"
          (mkGameData "ayo" "alice" (Some "bob") "IN_PROGRESS" None (Some 5))]).
Proof.
  assert (Hne : "bob" <> "alice") by discriminate.
  destruct (created_game_is_joined_by_another_player (healthy 0)
              (healthy_game 5) "alice" "bob" "ayo" (initial [])
              eq_refl (fun g (H : In g []) => match H with end) eq_refl)
    as (_ & _ & _ & H).
  exact (H Hne eq_refl).
Defined.

(** * Game statistics *)

Lemma get_set_other {V} k k' (v : V) m :
  k <> k' -> JsMap.get k (JsMap.set k' v m) = JsMap.get k m.
Proof.
  intros Hne. induction m as [| [a x] m IH]; cbn [JsMap.set JsMap.get].
  - destruct (String.eqb_spec k' k); [congruence | reflexivity].
  - destruct (String.eqb_spec a k') as [E | E]; cbn [JsMap.get].
    + subst a. destruct (String.eqb_spec k' k); [congruence | reflexivity].
    + destruct (String.eqb a k); [reflexivity | exact IH].
Qed.

(** What [statsMap] holds for a game: the last row of that game. *)
Lemma stats_map_get (gameId : string) (rows : list GameStats) :
  forall m,
    JsMap.get gameId
      (fold_left (fun statsMap stat => JsMap.set (gs_gameId stat) stat statsMap)
         rows m)
    = match find (fun row => String.eqb (gs_gameId row) gameId) (rev rows) with
      | Some row => Some row
      | None => JsMap.get gameId m
      end.
Proof.
  induction rows as [| row rows IH]; intros m; cbn [fold_left rev find];
    [reflexivity |].
  rewrite IH, find_append. cbn [find].
  destruct (find _ (rev rows)); [reflexivity |].
  destruct (String.eqb_spec (gs_gameId row) gameId) as [E | E].
  - subst gameId. apply get_set_same.
  - apply get_set_other. congruence.
Qed.

Lemma stats_map_some gameId rows stat :
  JsMap.get gameId (stats_map rows) = Some stat ->
  In stat rows /\ gs_gameId stat = gameId.
Proof.
  unfold stats_map. rewrite stats_map_get.
  destruct (find _ (rev rows)) as [row |] eqn:Hfind; [| discriminate].
  intros [= <-]. apply find_some in Hfind as [Hin Hid].
  split; [now apply in_rev | now apply String.eqb_eq].
Qed.

Lemma stats_map_none gameId rows :
  JsMap.get gameId (stats_map rows) = None ->
  forall row, In row rows -> gs_gameId row <> gameId.
Proof.
  unfold stats_map. rewrite stats_map_get.
  destruct (find _ (rev rows)) as [row |] eqn:Hfind; [discriminate |].
  intros _ row Hin E.
  pose proof (find_none _ _ Hfind row (proj1 (in_rev _ _) Hin)) as H.
  cbv beta in H. apply String.eqb_neq in H. contradiction.
Qed.

(** X20. [getAllGameStats] always lists exactly the five default games,
    in their fixed order, and reports 5 as [totalGames]: the element of a
    game is a stored row of the requesting user for that game when the
    user has one, and otherwise the default object of the game with 0
    wins, losses and draws, rating 1000 and [hasExistingStats] false.
    [gamesWithStats] is the number of all rows of the user. *)
Theorem getAllGameStats_lists_the_default_games (env : StatsEnv)
    (userId : UserId) (table : list GameStats) :
  se_fails env = false ->
  exists allGameStats,
    getAllGameStats env userId table
    = AllGameStats allGameStats 5
        (List.length (filter (fun row => String.eqb (gs_userId row) userId) table)) /\
    map entry_gameId allGameStats = ["chess"; "ayo"; "whot"; "ludo"; "draughts"] /\
    forall entry, In entry allGameStats ->
      match entry with
      | Stored row => In row table /\ gs_userId row = userId
      | Defaulted stats =>
          (exists game, In game DEFAULT_GAMES /\
             stats = mkDefaultStats (dg_id game) (dg_title game) 0 0 0 1000 false) /\
          (forall row, In row table -> gs_userId row = userId ->
             gs_gameId row <> ds_gameId stats)
      end.
Proof.
  intros Hup. unfold getAllGameStats. rewrite Hup. cbv zeta.
  set (existing := filter (fun row => String.eqb (gs_userId row) userId) table).
  eexists. split; [reflexivity |].
  assert (G : forall defaults,
            incl defaults DEFAULT_GAMES ->
            map entry_gameId
              (map (fun game =>
                      match JsMap.get (dg_id game) (stats_map existing) with
                      | Some existingStat => Stored existingStat
                      | None => Defaulted (default_stats game)
                      end) defaults) = map dg_id defaults /\
            forall entry,
              In entry
                (map (fun game =>
                        match JsMap.get (dg_id game) (stats_map existing) with
                        | Some existingStat => Stored existingStat
                        | None => Defaulted (default_stats game)
                        end) defaults) ->
              match entry with
              | Stored row => In row table /\ gs_userId row = userId
              | Defaulted stats =>
                  (exists game, In game DEFAULT_GAMES /\
                     stats = mkDefaultStats (dg_id game) (dg_title game)
                               0 0 0 1000 false) /\
                  (forall row, In row table -> gs_userId row = userId ->
                     gs_gameId row <> ds_gameId stats)
              end).
  { induction defaults as [| game defaults IH]; intros Hincl.
    - split; [reflexivity | intros entry []].
    - assert (Hrest : incl defaults DEFAULT_GAMES)
        by (intros x Hx; apply Hincl; now right).
      destruct (IH Hrest) as [IHids IHall]. cbn [map]. split.
      + f_equal; [| exact IHids].
        destruct (JsMap.get (dg_id game) (stats_map existing)) as [stat |] eqn:Hget;
          [| reflexivity].
        apply stats_map_some in Hget as [_ Hid]. exact Hid.
      + intros entry [<- | Hin]; [| now apply IHall].
        destruct (JsMap.get (dg_id game) (stats_map existing)) as [stat |] eqn:Hget.
        * apply stats_map_some in Hget as [Hin _]. subst existing.
          apply filter_In in Hin as [Hin Hu]. split; [exact Hin |].
          now apply String.eqb_eq.
        * split.
          -- exists game. split; [apply Hincl; now left | reflexivity].
          -- intros row Hin Hu. cbn [default_stats ds_gameId].
             apply (stats_map_none _ _ Hget). subst existing.
             apply filter_In. split; [exact Hin | now apply String.eqb_eq]. }
  destruct (G DEFAULT_GAMES (incl_refl _)) as [Hids Hall].
  split; [exact Hids | exact Hall].
Qed.

(** The theorem for a user with one row. *)
Lemma getAllGameStats_lists_the_default_games_witness :
  exists allGameStats,
    getAllGameStats (stats_up 9) "alice"
      [mkGameStats "s1" "alice" "ayo" 3 1 0 1100 0 5]
    = AllGameStats allGameStats 5 1.
Proof.
  destruct (getAllGameStats_lists_the_default_games (stats_up 9) "alice"
              [mkGameStats "s1" "alice" "ayo" 3 1 0 1100 0 5] eq_refl)
    as (all & H & _).
  exists all. exact H.
Defined.

Lemma find_is_some {A} (f : A -> bool) l :
  match find f l with Some _ => true | None => false end = existsb f l.
Proof.
  induction l as [| x l IH]; cbn [find existsb]; [reflexivity |].
  destruct (f x); [reflexivity | exact IH].
Qed.

Lemma existsb_reverse {A} (f : A -> bool) l : existsb f (rev l) = existsb f l.
Proof.
  induction l as [| x l IH]; cbn [rev existsb]; [reflexivity |].
  rewrite existsb_app, IH. cbn [existsb]. rewrite orb_false_r. apply orb_comm.
Qed.

Lemma filter_length_split {A} (p : A -> bool) l :
  (List.length (filter p l) + List.length (filter (fun x => negb (p x)) l)
   = List.length l)%nat.
Proof.
  induction l as [| x l IH]; cbn [filter]; [reflexivity |].
  destruct (p x); cbn [negb List.length]; lia.
Qed.

Lemma filter_length_disjoint {A} (p q : A -> bool) l :
  (forall x, In x l -> p x = true -> q x = false) ->
  (List.length (filter (fun x => p x || q x) l)
   = List.length (filter p l) + List.length (filter q l))%nat.
Proof.
  induction l as [| x l IH]; intros H; cbn [filter]; [reflexivity |].
  assert (IH' := IH (fun y Hy => H y (or_intror Hy))).
  destruct (p x) eqn:Hp; cbn [orb].
  - rewrite (H x (or_introl eq_refl) Hp). cbn [List.length]. lia.
  - destruct (q x); cbn [List.length]; lia.
Qed.

(** With one row per game, the rows of a game are none or one. *)
Lemma filter_game_length (gameId : string) (rows : list GameStats) :
  NoDup (map gs_gameId rows) ->
  List.length (filter (fun row => String.eqb gameId (gs_gameId row)) rows)
  = if existsb (fun row => String.eqb (gs_gameId row) gameId) rows
    then 1%nat else 0%nat.
Proof.
  induction rows as [| row rows IH]; cbn [map filter existsb]; intros Hnd;
    [reflexivity |].
  inversion Hnd as [| ? ? Hnotin Hrest]; subst.
  rewrite (String.eqb_sym gameId (gs_gameId row)).
  destruct (String.eqb_spec (gs_gameId row) gameId) as [E | E]; cbn [orb].
  - cbn [List.length]. rewrite (IH Hrest).
    destruct (existsb _ rows) eqn:Hex; [| reflexivity].
    exfalso. apply existsb_exists in Hex as (row' & Hin & Hid).
    apply String.eqb_eq in Hid. apply Hnotin. rewrite E, <- Hid.
    now apply in_map.
  - exact (IH Hrest).
Qed.

(** The games of a list that have a row, and the rows that have a game of
    the list, are equally many. *)
Lemma games_with_rows_count (defaults : list DefaultGame)
    (rows : list GameStats) :
  NoDup (map dg_id defaults) ->
  NoDup (map gs_gameId rows) ->
  List.length
    (filter (fun game =>
               existsb (fun row => String.eqb (gs_gameId row) (dg_id game)) rows)
       defaults)
  = List.length
      (filter (fun row =>
                 existsb (fun game => String.eqb (dg_id game) (gs_gameId row))
                   defaults)
         rows).
Proof.
  intros Hd Hr. induction defaults as [| game defaults IH];
    cbn [filter existsb map] in *.
  - symmetry. induction rows as [| row rows IHr]; [reflexivity |].
    cbn [filter]. apply IHr. now inversion Hr.
  - inversion Hd as [| ? ? Hnotin Hrest]; subst.
    rewrite filter_length_disjoint.
    + rewrite <- (IH Hrest), (filter_game_length _ _ Hr).
      destruct (existsb _ rows); cbn [List.length]; lia.
    + intros row _ Hid. apply String.eqb_eq in Hid.
      destruct (existsb _ defaults) eqn:Hex; [| reflexivity].
      exfalso. apply existsb_exists in Hex as (game' & Hin & Hid').
      apply String.eqb_eq in Hid'. apply Hnotin. rewrite Hid, <- Hid'.
      now apply in_map.
Qed.

Lemma user_rows_one_per_game (userId : UserId) (table : list GameStats) :
  unique_keys table ->
  NoDup (map gs_gameId
           (filter (fun row => String.eqb (gs_userId row) userId) table)).
Proof.
  unfold unique_keys. induction table as [| row table IH]; cbn [map filter];
    intros Hnd; [constructor |].
  inversion Hnd as [| ? ? Hnotin Hrest]; subst.
  destruct (String.eqb_spec (gs_userId row) userId) as [E | E]; [| auto].
  cbn [map]. constructor; [| auto].
  intros Hin. apply in_map_iff in Hin as (row' & Hid & Hin).
  apply filter_In in Hin as [Hin Hu]. apply String.eqb_eq in Hu.
  apply Hnotin. apply in_map_iff. exists row'. split; [| exact Hin].
  congruence.
Qed.

(** X21. [gamesWithStats] also counts the user's rows of games that are
    not among the five default games, although [allGameStats] never shows
    them: with the unique index on (user, game), [gamesWithStats] is the
    number of stored rows shown in [allGameStats] plus the number of rows
    of the user for games outside the default list. *)
Theorem gamesWithStats_counts_rows_outside_the_list (env : StatsEnv)
    (userId : UserId) (table : list GameStats)
    (allGameStats : list StatsEntry) (totalGames gamesWithStats : nat) :
  unique_keys table ->
  getAllGameStats env userId table
  = AllGameStats allGameStats totalGames gamesWithStats ->
  (List.length (filter is_stored allGameStats)
   + List.length
       (filter (fun row => String.eqb (gs_userId row) userId
                           && negb (is_default_game (gs_gameId row))) table)
   = gamesWithStats)%nat.
Proof.
  intros Huniq. unfold getAllGameStats.
  destruct (se_fails env); [discriminate |]. cbv zeta.
  set (existing := filter (fun row => String.eqb (gs_userId row) userId) table).
  intros Heq.
  match type of Heq with
  | AllGameStats ?all _ ?n = _ =>
      assert (Hall : allGameStats = all) by congruence;
      assert (Hn : gamesWithStats = n) by congruence
  end.
  subst allGameStats gamesWithStats. clear Heq.
  assert (Hstored : forall defaults,
            filter is_stored
              (map (fun game =>
                      match JsMap.get (dg_id game) (stats_map existing) with
                      | Some existingStat => Stored existingStat
                      | None => Defaulted (default_stats game)
                      end) defaults)
            = map (fun game =>
                     match JsMap.get (dg_id game) (stats_map existing) with
                     | Some existingStat => Stored existingStat
                     | None => Defaulted (default_stats game)
                     end)
                (filter (fun game =>
                           existsb (fun row => String.eqb (gs_gameId row) (dg_id game))
                             existing) defaults)).
  { induction defaults as [| game defaults IH]; [reflexivity |].
    cbn [map filter].
    assert (Hsome : is_stored
                      match JsMap.get (dg_id game) (stats_map existing) with
                      | Some existingStat => Stored existingStat
                      | None => Defaulted (default_stats game)
                      end
                    = existsb (fun row => String.eqb (gs_gameId row) (dg_id game))
                        existing).
    { unfold stats_map. rewrite stats_map_get. cbn [JsMap.get JsMap.empty].
      rewrite <- existsb_reverse, <- find_is_some.
      destruct (find _ (rev existing)); reflexivity. }
    rewrite Hsome. destruct (existsb _ existing); cbn [map]; now rewrite IH. }
  rewrite Hstored, length_map.
  rewrite games_with_rows_count;
    [| repeat constructor; cbn; intuition discriminate
     | now apply user_rows_one_per_game].
  rewrite <- (filter_length_split
                (fun row => existsb (fun game => String.eqb (dg_id game) (gs_gameId row))
                              DEFAULT_GAMES) existing).
  f_equal. subst existing. unfold is_default_game.
  clear. induction table as [| row table IH]; [reflexivity |].
  cbn [filter]. destruct (String.eqb (gs_userId row) userId); cbn [andb filter].
  - destruct (negb _); cbn [List.length]; now rewrite IH.
  - exact IH.
Qed.

(** The theorem for a user with a row for "ayo" and a row for a game
    outside the list: one stored row is shown, two are counted. *)
Lemma gamesWithStats_counts_rows_outside_the_list_witness :
  let table := [mkGameStats "s1" "alice" "ayo" 3 1 0 1100 0 5;
                mkGameStats "s2" "alice" "scrabble" 1 0 0 1010 0 6] in
  let shown := [Defaulted (mkDefaultStats "chess" "Chess" 0 0 0 1000 false);
                Stored (mkGameStats "s1" "alice" "ayo" 3 1 0 1100 0 5);
                Defaulted (mkDefaultStats "whot" "Whot" 0 0 0 1000 false);
                Defaulted (mkDefaultStats "ludo" "Ludo" 0 0 0 1000 false);
                Defaulted (mkDefaultStats "draughts" "Draughts" 0 0 0 1000 false)] in
  getAllGameStats (stats_up 9) "alice" table = AllGameStats shown 5 2 /\
  (List.length (filter is_stored shown)
   + List.length
       (filter (fun row => String.eqb (gs_userId row) "alice"
                           && negb (is_default_game (gs_gameId row))) table)
   = 2)%nat.
Proof.
  assert (Huniq : unique_keys
                    [mkGameStats "s1" "alice" "ayo" 3 1 0 1100 0 5;
                     mkGameStats "s2" "alice" "scrabble" 1 0 0 1010 0 6]).
  { repeat constructor; cbn; intuition discriminate. }
  split; [reflexivity |].
  exact (gamesWithStats_counts_rows_outside_the_list (stats_up 9) "alice" _ _ 5 2
           Huniq eq_refl).
Defined.

Lemma or_else_nonzero (x : option Z) (old : Z) :
  old <> 0 -> or_else x old <> 0.
Proof.
  unfold or_else, or_undefined. destruct x as [[| p | p] |]; intros H;
    try exact H; discriminate.
Qed.

Lemma has_key_apply_update userId gameId now body row :
  has_key userId gameId (apply_update now body row) = has_key userId gameId row.
Proof. reflexivity. Qed.

Lemma stats_find_split userId gameId (table : list GameStats) row :
  find (has_key userId gameId) table = Some row ->
  exists before after,
    table = before ++ row :: after /\
    has_key userId gameId row = true /\
    (forall row', In row' before -> has_key userId gameId row' = false).
Proof.
  induction table as [| r table IH]; cbn [find]; [discriminate |].
  destruct (has_key userId gameId r) eqn:Hk.
  - intros [= <-]. exists [], table. split; [reflexivity |].
    split; [exact Hk | intros r' []].
  - intros H. apply IH in H as (b & a & -> & Hrow & Hb).
    exists (r :: b), a. split; [reflexivity |]. split; [exact Hrow |].
    intros r' [<- | Hin]; auto.
Qed.

Lemma update_stats_split userId gameId (f : GameStats -> GameStats)
    before row after :
  (forall row', In row' before -> has_key userId gameId row' = false) ->
  has_key userId gameId row = true ->
  update_stats userId gameId f (before ++ row :: after)
  = before ++ f row :: after.
Proof.
  intros Hb Hrow. induction before as [| b before IH]; cbn [app update_stats].
  - now rewrite Hrow.
  - rewrite (Hb b (or_introl eq_refl)). f_equal.
    apply IH. intros r Hin. apply Hb. now right.
Qed.

Lemma has_key_true userId gameId row :
  has_key userId gameId row = true <->
  gs_userId row = userId /\ gs_gameId row = gameId.
Proof.
  unfold has_key. rewrite andb_true_iff, !String.eqb_eq. tauto.
Qed.

Lemma or_else_written (x : option Z) (old : Z) :
  written_from x old (or_else x old).
Proof.
  unfold written_from, or_else, or_undefined. split; [| split].
  - intros [-> | ->]; reflexivity.
  - intros n -> Hn. destruct n; [contradiction | reflexivity | reflexivity].
  - apply or_else_nonzero.
Qed.

(** X22. An update treats 0 like a missing value: when the user has a
    row for the game, [updateGameStats] writes a statistic only when the
    request gives a number other than 0 for it, and leaves it as stored
    when the request gives 0 or nothing.  So a statistic that is not 0
    can never be set back to 0 through this request; the id, the key and
    the creation time of the row are kept. *)
Theorem update_cannot_reset_a_statistic_to_zero (env : StatsEnv)
    (userId : UserId) (gameId : string) (body : StatsBody)
    (table : list GameStats) (row : GameStats) :
  se_fails env = false ->
  find (has_key userId gameId) table = Some row ->
  exists row',
    fst (updateGameStats env userId gameId body table) = StatsUpdated row' /\
    gs_id row' = gs_id row /\
    gs_userId row' = userId /\ gs_gameId row' = gameId /\
    gs_createdAt row' = gs_createdAt row /\
    written_from (body_wins body) (gs_wins row) (gs_wins row') /\
    written_from (body_losses body) (gs_losses row) (gs_losses row') /\
    written_from (body_draws body) (gs_draws row) (gs_draws row') /\
    written_from (body_rating body) (gs_rating row) (gs_rating row').
Proof.
  intros Hup Hfind. unfold updateGameStats, prisma_gameStats_upsert.
  rewrite Hup, Hfind. cbn [fst]. eexists. split; [reflexivity |].
  apply stats_find_split in Hfind as (b & a & _ & Hkey & _).
  apply has_key_true in Hkey as [Hu Hg].
  cbn [apply_update gs_id gs_userId gs_gameId gs_createdAt
       gs_wins gs_losses gs_draws gs_rating].
  split; [reflexivity |]. split; [exact Hu |]. split; [exact Hg |].
  split; [reflexivity |].
  repeat split; apply or_else_written.
Qed.

(** The theorem for a request that sends wins 0 and rating 1200 for a
    row with 3 wins. *)
Lemma update_cannot_reset_a_statistic_to_zero_witness :
  exists row',
    fst (updateGameStats (stats_up 9) "alice" "ayo"
           (mkStatsBody (Some 0) None None (Some 1200))
           [mkGameStats "s1" "alice" "ayo" 3 1 0 1100 0 5])
    = StatsUpdated row' /\
    gs_wins row' = 3 /\ gs_rating row' = 1200.
Proof.
  destruct (update_cannot_reset_a_statistic_to_zero (stats_up 9) "alice" "ayo"
              (mkStatsBody (Some 0) None None (Some 1200))
              [mkGameStats "s1" "alice" "ayo" 3 1 0 1100 0 5]
              (mkGameStats "s1" "alice" "ayo" 3 1 0 1100 0 5)
              eq_refl eq_refl)
    as (row' & Hr & _ & _ & _ & _ & Hw & _ & _ & Hrt).
  exists row'. split; [exact Hr |]. split.
  - exact (proj1 Hw (or_intror eq_refl)).
  - apply (proj1 (proj2 Hrt) 1200); [reflexivity | discriminate].
Defined.

Lemma NoDup_snoc {A} (l : list A) x : NoDup l -> ~ In x l -> NoDup (l ++ [x]).
Proof.
  intros Hl Hx. induction l as [| y l IH]; cbn [app].
  - constructor; [intros [] | constructor].
  - inversion Hl as [| ? ? Hy Hrest]; subst. constructor.
    + intros Hin. apply in_app_or in Hin as [Hin | [<- | []]];
        [contradiction | apply Hx; now left].
    + apply IH; [exact Hrest |]. intros Hin. apply Hx. now right.
Qed.

Lemma has_key_other userId gameId userId2 gameId2 row :
  has_key userId gameId row = true ->
  userId2 <> userId \/ gameId2 <> gameId ->
  has_key userId2 gameId2 row = false.
Proof.
  intros Hk Hne. apply has_key_true in Hk as [Hu Hg].
  destruct (has_key userId2 gameId2 row) eqn:Hk2; [| reflexivity].
  apply has_key_true in Hk2 as [Hu2 Hg2]. destruct Hne; congruence.
Qed.

(** X23. What [updateGameStats] writes is what [getGameStats] reads: when
    the store answers, the update answers with a row of the user and the
    game, a following [getGameStats] of the same user and game answers
    with exactly that row, the rows of every other user or game are found
    as before, the table grows by one row when the user had no row for
    the game and keeps its length otherwise, and the unique index on
    (user, game) is kept. *)
Theorem updated_stats_are_read_back (env env' : StatsEnv) (userId : UserId)
    (gameId : string) (body : StatsBody) (table : list GameStats) :
  se_fails env = false ->
  se_fails env' = false ->
  let table' := snd (updateGameStats env userId gameId body table) in
  exists row',
    fst (updateGameStats env userId gameId body table) = StatsUpdated row' /\
    gs_userId row' = userId /\ gs_gameId row' = gameId /\
    getGameStats env' userId gameId table' = StatsFound row' /\
    (forall userId2 gameId2,
       userId2 <> userId \/ gameId2 <> gameId ->
       find (has_key userId2 gameId2) table'
       = find (has_key userId2 gameId2) table) /\
    List.length table'
    = (if existsb (has_key userId gameId) table
       then List.length table else S (List.length table)) /\
    (unique_keys table -> unique_keys table').
Proof.
  intros Hup Hup' table'. subst table'.
  unfold updateGameStats, prisma_gameStats_upsert, getGameStats.
  rewrite Hup, Hup'. rewrite <- (find_is_some (has_key userId gameId) table).
  destruct (find (has_key userId gameId) table) as [row |] eqn:Hfind;
    cbn [fst snd].
  - eexists. split; [reflexivity |].
    apply stats_find_split in Hfind as (b & a & -> & Hkey & Hb).
    rewrite (update_stats_split _ _ _ _ _ _ Hb Hkey).
    pose proof Hkey as Hkey'. apply has_key_true in Hkey' as [Hu Hg].
    split; [exact Hu |]. split; [exact Hg |]. split.
    + rewrite find_append.
      assert (Hnone : find (has_key userId gameId) b = None).
      { destruct (find (has_key userId gameId) b) as [r |] eqn:Hf; [| reflexivity].
        apply find_some in Hf as [Hin Hk]. rewrite (Hb r Hin) in Hk.
        discriminate. }
      rewrite Hnone. cbn [find]. rewrite has_key_apply_update, Hkey. reflexivity.
    + split; [| split].
      * intros u2 g2 Hne. rewrite !find_append. cbn [find].
        rewrite has_key_apply_update, (has_key_other _ _ _ _ _ Hkey Hne).
        reflexivity.
      * rewrite !length_app. reflexivity.
      * unfold unique_keys. rewrite !map_app. cbn [map apply_update gs_userId gs_gameId].
        exact (fun H => H).
  - eexists. split; [reflexivity |]. cbn [new_row gs_userId gs_gameId].
    split; [reflexivity |]. split; [reflexivity |].
    assert (Hnew : has_key userId gameId (new_row env userId gameId body) = true)
      by (apply has_key_true; split; reflexivity).
    split; [| split; [| split]].
    + rewrite find_append, Hfind. cbn [find].
      unfold has_key, new_row. cbn [gs_userId gs_gameId].
      rewrite !String.eqb_refl. reflexivity.
    + intros u2 g2 Hne. rewrite find_append.
      destruct (find (has_key u2 g2) table); [reflexivity |].
      cbn [find]. now rewrite (has_key_other _ _ _ _ _ Hnew Hne).
    + rewrite length_app. cbn. lia.
    + unfold unique_keys. intros Huniq. rewrite map_app. cbn [map].
      apply NoDup_snoc; [exact Huniq |].
      intros Hin. apply in_map_iff in Hin as (r & Hr & Hin).
      pose proof (find_none _ _ Hfind r Hin) as Hk.
      cbn [new_row gs_userId gs_gameId] in Hr. injection Hr as Hu Hg.
      assert (has_key userId gameId r = true) by (apply has_key_true; now split).
      congruence.
Qed.

(** The theorem for a first update of a game outside the default list:
    the row is created and read back. *)
Lemma updated_stats_are_read_back_witness :
  exists row',
    fst (updateGameStats (stats_up 4) "alice" "scrabble"
           (mkStatsBody (Some 2) None None None) []) = StatsUpdated row' /\
    getGameStats (stats_up 8) "alice" "scrabble"
      (snd (updateGameStats (stats_up 4) "alice" "scrabble"
              (mkStatsBody (Some 2) None None None) []))
    = StatsFound row'.
Proof.
  destruct (updated_stats_are_read_back (stats_up 4) (stats_up 8) "alice"
              "scrabble" (mkStatsBody (Some 2) None None None) []
              eq_refl eq_refl) as (row' & Hr & _ & _ & Hget & _).
  exists row'. split; assumption.
Defined.

Lemma createMany_appends data : forall table,
  exists added,
    createMany_skipDuplicates data table = table ++ added /\
    incl added data.
Proof.
  induction data as [| row data IH]; intros table; cbn [createMany_skipDuplicates].
  - exists []. split; [now rewrite app_nil_r | intros x []].
  - destruct (existsb _ table).
    + destruct (IH table) as (added & -> & Hincl).
      exists added. split; [reflexivity |]. intros x Hx. right. now apply Hincl.
    + destruct (IH (table ++ [row])) as (added & -> & Hincl).
      exists (row :: added). split; [now rewrite <- app_assoc |].
      intros x [<- | Hx]; [now left | right; now apply Hincl].
Qed.

Lemma createMany_keeps_keys data table userId gameId :
  existsb (has_key userId gameId) table = true ->
  existsb (has_key userId gameId) (createMany_skipDuplicates data table) = true.
Proof.
  intros H. destruct (createMany_appends data table) as (added & -> & _).
  rewrite existsb_app, H. reflexivity.
Qed.

Lemma createMany_covers data : forall table row,
  In row data ->
  existsb (has_key (gs_userId row) (gs_gameId row))
    (createMany_skipDuplicates data table) = true.
Proof.
  induction data as [| r data IH]; intros table row Hin; [destruct Hin |].
  cbn [createMany_skipDuplicates]. destruct Hin as [<- | Hin].
  - destruct (existsb _ table) eqn:Hex.
    + now apply createMany_keeps_keys.
    + apply createMany_keeps_keys. rewrite existsb_app. cbn [existsb].
      unfold has_key. rewrite !String.eqb_refl. cbn. apply orb_true_r.
  - destruct (existsb _ table); now apply IH.
Qed.

Lemma createMany_unique data : forall table,
  unique_keys table -> unique_keys (createMany_skipDuplicates data table).
Proof.
  induction data as [| row data IH]; intros table Huniq;
    cbn [createMany_skipDuplicates]; [exact Huniq |].
  destruct (existsb _ table) eqn:Hex; [now apply IH |].
  apply IH. unfold unique_keys in *. rewrite map_app. cbn [map].
  apply NoDup_snoc; [exact Huniq |].
  intros Hin. apply in_map_iff in Hin as (r & Hr & Hin). injection Hr as Hu Hg.
  assert (Hk : has_key (gs_userId row) (gs_gameId row) r = true)
    by (apply has_key_true; now split).
  assert (Hex' : existsb (has_key (gs_userId row) (gs_gameId row)) table = true)
    by (apply existsb_exists; eauto).
  congruence.
Qed.

Lemma createMany_nothing_new data : forall table,
  (forall row, In row data ->
     existsb (has_key (gs_userId row) (gs_gameId row)) table = true) ->
  createMany_skipDuplicates data table = table.
Proof.
  induction data as [| row data IH]; intros table H;
    cbn [createMany_skipDuplicates]; [reflexivity |].
  rewrite (H row (or_introl eq_refl)). apply IH.
  intros r Hr. apply H. now right.
Qed.

(** X24. [initializeUserGameStats] gives a user a row for every default
    game without touching what is stored: when the store answers, the
    table after it is the table before it followed by new rows of this
    user, each for a default game and with 0 wins, losses and draws and
    rating 1000; every default game then has a row of the user, the
    unique index on (user, game) is kept, all five elements of the
    user's [allGameStats] are stored rows, and running the helper again
    changes nothing.  When the call rejects, the table is left as it is
    and no failure is reported. *)
Theorem initialize_gives_a_row_for_every_default_game (env : StatsEnv)
    (userId : UserId) (table : list GameStats) :
  let table' := initializeUserGameStats env userId table in
  (se_fails env = true -> table' = table) /\
  (se_fails env = false ->
   (exists added,
      table' = table ++ added /\
      forall row, In row added ->
        gs_userId row = userId /\ is_default_game (gs_gameId row) = true /\
        gs_wins row = 0 /\ gs_losses row = 0 /\ gs_draws row = 0 /\
        gs_rating row = 1000) /\
   (forall game, In game DEFAULT_GAMES ->
      existsb (has_key userId (dg_id game)) table' = true) /\
   (unique_keys table -> unique_keys table') /\
   (forall env', initializeUserGameStats env' userId table' = table') /\
   (forall env' allGameStats totalGames gamesWithStats,
      getAllGameStats env' userId table'
      = AllGameStats allGameStats totalGames gamesWithStats ->
      forall entry, In entry allGameStats -> is_stored entry = true)).
Proof.
  intros table'. subst table'. unfold initializeUserGameStats. cbv zeta.
  split; [intros ->; reflexivity |]. intros Hup. rewrite Hup.
  set (data := map (fun game =>
                      mkGameStats (se_newId env (dg_id game)) userId (dg_id game)
                        0 0 0 1000 (se_now env) (se_now env)) DEFAULT_GAMES).
  assert (Hdata : forall row, In row data ->
            exists game, In game DEFAULT_GAMES /\
              row = mkGameStats (se_newId env (dg_id game)) userId (dg_id game)
                      0 0 0 1000 (se_now env) (se_now env)).
  { intros row Hin. subst data. apply in_map_iff in Hin as (game & <- & Hin).
    eauto. }
  assert (Hcover : forall game, In game DEFAULT_GAMES ->
            existsb (has_key userId (dg_id game))
              (createMany_skipDuplicates data table) = true).
  { intros game Hin.
    apply (createMany_covers data table
             (mkGameStats (se_newId env (dg_id game)) userId (dg_id game)
                0 0 0 1000 (se_now env) (se_now env))).
    subst data. apply in_map_iff. eauto. }
  split; [| split; [exact Hcover | split; [apply createMany_unique | split]]].
  - destruct (createMany_appends data table) as (added & Heq & Hincl).
    exists added. split; [exact Heq |].
    intros row Hin. apply Hincl, Hdata in Hin as (game & Hgame & ->).
    split; [reflexivity |]. split; [| repeat split].
    cbn [gs_gameId]. unfold is_default_game. apply existsb_exists.
    exists game. split; [exact Hgame | apply String.eqb_refl].
  - intros env'. destruct (se_fails env'); [reflexivity |].
    apply createMany_nothing_new. intros row Hin.
    apply in_map_iff in Hin as (game & <- & Hin). cbn [gs_userId gs_gameId].
    now apply Hcover.
  - intros env' all total n. unfold getAllGameStats.
    destruct (se_fails env'); [discriminate |]. cbv zeta. intros Heq.
    match type of Heq with
    | AllGameStats ?a _ _ = _ => assert (Hall : all = a) by congruence
    end.
    subst all. clear Heq. intros entry Hin.
    apply in_map_iff in Hin as (game & <- & Hin).
    destruct (JsMap.get (dg_id game) (stats_map _)) as [stat |] eqn:Hget;
      [reflexivity |].
    exfalso. specialize (Hcover game Hin).
    apply existsb_exists in Hcover as (row & Hrow & Hk).
    apply has_key_true in Hk as [Hu Hg].
    apply (stats_map_none _ _ Hget row); [| exact Hg].
    apply filter_In. split; [exact Hrow | now apply String.eqb_eq].
Qed.

(** The theorem for a new user in an empty table. *)
Lemma initialize_gives_a_row_for_every_default_game_witness :
  existsb (has_key "alice" "ludo")
    (initializeUserGameStats (stats_up 1) "alice" []) = true.
Proof.
  destruct (initialize_gives_a_row_for_every_default_game (stats_up 1) "alice" [])
    as [_ H].
  destruct (H eq_refl) as (_ & Hcover & _).
  apply (Hcover (mkDefaultGame "ludo" "Ludo")).
  right. right. right. left. reflexivity.
Defined.
